(** * dhcpcd, Linux privilege separation driver (src/privsep-linux.c)

    A shallow embedding of the seccomp filter table, of the privileged
    netlink relay and of the sandbox installer, with the properties the
    specification states about them. *)

From Stdlib Require Import ZArith Lia List.
From stdpp Require Import base decidable option list gmap sets strings.

Local Open Scope Z_scope.

(** ** Fixed-width integers of the C code *)

Definition u8 (x : Z) : Z := x mod 2 ^ 8.
Definition u16 (x : Z) : Z := x mod 2 ^ 16.
Definition u32 (x : Z) : Z := x mod 2 ^ 32.
Definition u64 (x : Z) : Z := x mod 2 ^ 64.

(** [(int)x]: the value wrapped into the signed 32-bit range. *)
Definition to_int (x : Z) : Z := (x + 2 ^ 31) mod 2 ^ 32 - 2 ^ 31.

(** [(unsigned long)x] on an LP64 target. *)
Definition to_ulong (x : Z) : Z := u64 x.

(** ** Classic BPF as the seccomp filter uses it

    linux/filter.h and linux/bpf_common.h: instruction classes, sizes, modes
    and the three opcodes the table is built from. *)

Definition BPF_LD : Z := 0x00.
Definition BPF_JMP : Z := 0x05.
Definition BPF_RET : Z := 0x06.
Definition BPF_W : Z := 0x00.
Definition BPF_ABS : Z := 0x20.
Definition BPF_JEQ : Z := 0x10.
Definition BPF_K : Z := 0x00.

(** struct sock_filter { __u16 code; __u8 jt; __u8 jf; __u32 k; } *)
Record sock_filter := mk_insn { code : Z; jt : Z; jf : Z; k : Z }.

Definition BPF_STMT (c kk : Z) : sock_filter :=
  {| code := u16 c; jt := 0; jf := 0; k := u32 kk |}.

Definition BPF_JUMP (c kk t f : Z) : sock_filter :=
  {| code := u16 c; jt := u8 t; jf := u8 f; k := u32 kk |}.

(** linux/seccomp.h: return values of a filter. *)
Definition SECCOMP_RET_KILL_PROCESS : Z := 0x80000000.
Definition SECCOMP_RET_KILL_THREAD : Z := 0x00000000.
Definition SECCOMP_RET_KILL : Z := SECCOMP_RET_KILL_THREAD.
Definition SECCOMP_RET_TRAP : Z := 0x00030000.
Definition SECCOMP_RET_ERRNO : Z := 0x00050000.
Definition SECCOMP_RET_USER_NOTIF : Z := 0x7fc00000.
Definition SECCOMP_RET_TRACE : Z := 0x7ff00000.
Definition SECCOMP_RET_LOG : Z := 0x7ffc0000.
Definition SECCOMP_RET_ALLOW : Z := 0x7fff0000.
Definition SECCOMP_RET_ACTION_FULL : Z := 0xffff0000.
Definition SECCOMP_RET_DATA : Z := 0x0000ffff.

(** struct seccomp_data { int nr; __u32 arch; __u64 instruction_pointer;
    __u64 args[6]; } *)
Record seccomp_data := mk_data {
  nr : Z;
  arch : Z;
  instruction_pointer : Z;
  args : list Z
}.

Definition offsetof_nr : Z := 0.
Definition offsetof_arch : Z := 4.
Definition offsetof_instruction_pointer : Z := 8.
Definition offsetof_args (i : nat) : Z := 16 + 8 * Z.of_nat i.

Inductive byte_order := LITTLE_ENDIAN | BIG_ENDIAN.

Definition lo32 (v : Z) : Z := u32 v.
Definition hi32 (v : Z) : Z := u32 (Z.shiftr (u64 v) 32).

(** The 32-bit word found [half] bytes (0 or 4) into a 64-bit field. *)
Definition word_of_u64 (bo : byte_order) (v : Z) (half : Z) : Z :=
  match bo with
  | LITTLE_ENDIAN => if half =? 0 then lo32 v else hi32 v
  | BIG_ENDIAN => if half =? 0 then hi32 v else lo32 v
  end.

(** BPF_LD+BPF_W+BPF_ABS on seccomp_data: an aligned word inside the
    64-byte structure, anything else is refused. *)
Definition seccomp_load (bo : byte_order) (d : seccomp_data) (off : Z)
  : option Z :=
  if off =? offsetof_nr then Some (u32 (nr d))
  else if off =? offsetof_arch then Some (u32 (arch d))
  else if (8 <=? off) && (off <? 16) && (off mod 4 =? 0) then
    Some (word_of_u64 bo (instruction_pointer d) (off - 8))
  else if (16 <=? off) && (off <? 64) && (off mod 4 =? 0) then
    let i := Z.to_nat ((off - 16) / 8) in
    Some (word_of_u64 bo (nth i (args d) 0) ((off - 16) mod 8))
  else None.

(** One step of the filter machine: program counter and accumulator. *)
Inductive outcome :=
| Next (pc : nat) (A : Z)
| Ret (v : Z)
| Fault.

Definition bpf_step (bo : byte_order) (prog : list sock_filter)
    (d : seccomp_data) (pc : nat) (A : Z) : outcome :=
  match prog !! pc with
  | None => Fault
  | Some i =>
    if code i =? BPF_LD + BPF_W + BPF_ABS then
      match seccomp_load bo d (k i) with
      | Some w => Next (S pc) w
      | None => Fault
      end
    else if code i =? BPF_JMP + BPF_JEQ + BPF_K then
      Next (S pc + Z.to_nat (if A =? k i then jt i else jf i)) A
    else if code i =? BPF_RET + BPF_K then Ret (k i)
    else Fault
  end.

(** At most [fuel] steps from [(pc, A)]; [Next] is a machine still running. *)
Fixpoint bpf_run (fuel : nat) (bo : byte_order) (prog : list sock_filter)
    (d : seccomp_data) (pc : nat) (A : Z) : outcome :=
  match fuel with
  | O => Next pc A
  | S fuel' =>
    match bpf_step bo prog d pc A with
    | Next pc' A' => bpf_run fuel' bo prog d pc' A'
    | o => o
    end
  end.

(** The program counters visited, in order. *)
Fixpoint bpf_trace (fuel : nat) (bo : byte_order) (prog : list sock_filter)
    (d : seccomp_data) (pc : nat) (A : Z) : list nat :=
  match fuel with
  | O => []
  | S fuel' =>
    pc :: match bpf_step bo prog d pc A with
          | Next pc' A' => bpf_trace fuel' bo prog d pc' A'
          | _ => []
          end
  end.

(** The kernel runs an installed filter from instruction 0; every jump is
    forward, so the length of the program bounds the number of steps. *)
Definition seccomp_run_filter (bo : byte_order) (prog : list sock_filter)
    (d : seccomp_data) : outcome :=
  bpf_run (length prog) bo prog d 0 0.

Definition seccomp_trace (bo : byte_order) (prog : list sock_filter)
    (d : seccomp_data) : list nat :=
  bpf_trace (length prog) bo prog d 0 0.

(** What a filter's return value does to the trapped system call. *)
Inductive seccomp_action :=
| ActKillProcess
| ActKillThread
| ActTrap
| ActErrno (e : Z)
| ActUserNotif
| ActTrace
| ActLog
| ActAllow.

Definition seccomp_action_of (ret : Z) : seccomp_action :=
  let a := Z.land ret SECCOMP_RET_ACTION_FULL in
  if a =? SECCOMP_RET_ALLOW then ActAllow
  else if a =? SECCOMP_RET_LOG then ActLog
  else if a =? SECCOMP_RET_TRACE then ActTrace
  else if a =? SECCOMP_RET_USER_NOTIF then ActUserNotif
  else if a =? SECCOMP_RET_ERRNO then ActErrno (Z.land ret SECCOMP_RET_DATA)
  else if a =? SECCOMP_RET_TRAP then ActTrap
  else if a =? SECCOMP_RET_KILL_THREAD then ActKillThread
  else ActKillProcess.

(** The fate of the calling process, which has [threads] threads. *)
Inductive fate :=
| ProcessKilled
| ThreadKilled
| Signalled
| CallFails (e : Z)
| CallDeferred
| CallProceeds.

Definition seccomp_fate (threads : nat) (a : seccomp_action) : fate :=
  match a with
  | ActKillProcess => ProcessKilled
  | ActKillThread => if (threads <=? 1)%nat then ProcessKilled else ThreadKilled
  | ActTrap => Signalled
  | ActErrno e => CallFails e
  | ActUserNotif | ActTrace => CallDeferred
  | ActLog | ActAllow => CallProceeds
  end.

(** ** The filter table of privsep-linux.c *)

(** What the build target fixes: byte order, the audit architecture tag,
    the [__NR_] macros sys/syscall.h defines and, on an x32 build
    ([__x86_64__], [__ILP32__] and [__X32_SYSCALL_BIT] all defined), the
    x32 marker bit. *)
Record platform := mk_platform {
  BYTE_ORDER : byte_order;
  SECCOMP_AUDIT_ARCH : Z;
  NR : gmap string Z;
  X32_SYSCALL_BIT : option Z
}.

Definition SECCOMP_ARG_LO (bo : byte_order) : Z :=
  match bo with LITTLE_ENDIAN => 0 | BIG_ENDIAN => 4 end.

Definition SECCOMP_ARG_HI (bo : byte_order) : Z :=
  match bo with LITTLE_ENDIAN => 4 | BIG_ENDIAN => 0 end.

Definition SECCOMP_ALLOW (_nr : Z) : list sock_filter :=
  [ BPF_JUMP (BPF_JMP + BPF_JEQ + BPF_K) _nr 0 1;
    BPF_STMT (BPF_RET + BPF_K) SECCOMP_RET_ALLOW ].

Definition SECCOMP_ALLOW_ARG (bo : byte_order) (_nr : Z) (_arg : nat)
    (_val : Z) : list sock_filter :=
  [ BPF_JUMP (BPF_JMP + BPF_JEQ + BPF_K) _nr 0 6;
    BPF_STMT (BPF_LD + BPF_W + BPF_ABS)
      (offsetof_args _arg + SECCOMP_ARG_LO bo);
    BPF_JUMP (BPF_JMP + BPF_JEQ + BPF_K)
      (Z.land _val 0xffffffff) 0 3;
    BPF_STMT (BPF_LD + BPF_W + BPF_ABS)
      (offsetof_args _arg + SECCOMP_ARG_HI bo);
    BPF_JUMP (BPF_JMP + BPF_JEQ + BPF_K)
      (Z.land (u32 (Z.shiftr (u64 _val) 32)) 0xffffffff) 0 1;
    BPF_STMT (BPF_RET + BPF_K) SECCOMP_RET_ALLOW;
    BPF_STMT (BPF_LD + BPF_W + BPF_ABS) offsetof_nr ].

Definition SECCOMP_FILTER_FAIL : Z := SECCOMP_RET_KILL.

(** linux/sockios.h *)
Definition SIOCGIFFLAGS : Z := 0x8913.
Definition SIOCGIFMTU : Z := 0x8921.
Definition SIOCGIFHWADDR : Z := 0x8927.
Definition SIOCGIFINDEX : Z := 0x8933.
Definition SIOCGIFVLAN : Z := 0x8982.

(** A row of the initialiser of [ps_seccomp_filter], guard included:
    - [Allow s]: [#ifdef __NR_s] / [SECCOMP_ALLOW(__NR_s)];
    - [AllowNoX32 s]: under the x32 guard,
      [SECCOMP_ALLOW(__NR_s & ~__X32_SYSCALL_BIT)];
    - [AllowArg s a v]: [#ifdef __NR_s] / [SECCOMP_ALLOW_ARG(__NR_s, a, v)]. *)
Inductive row :=
| Allow (s : string)
| AllowNoX32 (s : string)
| AllowArg (s : string) (a : nat) (v : Z).

Definition row_syscall (r : row) : string :=
  match r with
  | Allow s | AllowNoX32 s | AllowArg s _ _ => s
  end.

Definition ps_seccomp_table : list row :=
  [ Allow "accept";
    Allow "brk";
    Allow "clock_gettime";
    AllowNoX32 "clock_gettime";
    Allow "clock_gettime64";
    Allow "close";
    Allow "exit_group";
    Allow "fcntl";
    Allow "fstat";
    Allow "gettimeofday";
    Allow "getpid";
    AllowArg "ioctl" 1 SIOCGIFFLAGS;
    AllowArg "ioctl" 1 SIOCGIFHWADDR;
    AllowArg "ioctl" 1 SIOCGIFINDEX;
    AllowArg "ioctl" 1 SIOCGIFMTU;
    AllowArg "ioctl" 1 SIOCGIFVLAN;
    Allow "mmap";
    Allow "munmap";
    Allow "ppoll";
    Allow "ppoll_time64";
    Allow "read";
    Allow "readv";
    Allow "recvfrom";
    Allow "recvmsg";
    Allow "rt_sigreturn";
    Allow "sendmsg";
    Allow "sendto";
    Allow "shutdown";
    Allow "wait4";
    Allow "write";
    Allow "writev";
    Allow "uname" ].

(** The number a row compares the syscall number with, when its guard
    holds on the platform. *)
Definition row_nr (P : platform) (r : row) : option Z :=
  match r with
  | Allow s | AllowArg s _ _ => NR P !! s
  | AllowNoX32 s =>
    match X32_SYSCALL_BIT P, NR P !! s with
    | Some bit, Some n => Some (Z.land n (Z.lnot bit))
    | _, _ => None
    end
  end.

(** The instructions a row contributes after preprocessing. *)
Definition expand_row (P : platform) (r : row) : list sock_filter :=
  match row_nr P r with
  | None => []
  | Some n =>
    match r with
    | Allow _ | AllowNoX32 _ => SECCOMP_ALLOW n
    | AllowArg _ a v => SECCOMP_ALLOW_ARG (BYTE_ORDER P) n a v
    end
  end.

(** Check syscall arch, then load the syscall number. *)
Definition filter_head (P : platform) : list sock_filter :=
  [ BPF_STMT (BPF_LD + BPF_W + BPF_ABS) offsetof_arch;
    BPF_JUMP (BPF_JMP + BPF_JEQ + BPF_K) (SECCOMP_AUDIT_ARCH P) 1 0;
    BPF_STMT (BPF_RET + BPF_K) SECCOMP_FILTER_FAIL;
    BPF_STMT (BPF_LD + BPF_W + BPF_ABS) offsetof_nr ].

(** Deny everything else. *)
Definition filter_deny : sock_filter :=
  BPF_STMT (BPF_RET + BPF_K) SECCOMP_FILTER_FAIL.

(** The filter over an arbitrary table; [ps_seccomp_filter] is its
    instance at the table of the source. *)
Definition filter_of (P : platform) (t : list row) : list sock_filter :=
  filter_head P ++ flat_map (expand_row P) t ++ [filter_deny].

Definition ps_seccomp_filter (P : platform) : list sock_filter :=
  filter_of P ps_seccomp_table.

(** struct sock_fprog { unsigned short len; struct sock_filter *filter; },
    the fields prefixed to keep the list library's [filter] in reach. *)
Record sock_fprog := mk_fprog {
  fprog_len : Z;
  fprog_filter : list sock_filter
}.

Definition ps_seccomp_prog (P : platform) : sock_fprog :=
  {| fprog_len := u16 (Z.of_nat (length (ps_seccomp_filter P)));
     fprog_filter := ps_seccomp_filter P |}.

(** The syscall a filtered process makes, as the filter of platform [P]
    judges it. *)
Definition seccomp_verdict (P : platform) (d : seccomp_data) : outcome :=
  seccomp_run_filter (BYTE_ORDER P) (ps_seccomp_filter P) d.

(** When a row lets the call through: the syscall number is the row's and,
    for a constrained row, both halves of the argument are the required
    ones. *)
Definition row_allows (P : platform) (d : seccomp_data) (r : row) : bool :=
  match row_nr P r with
  | None => false
  | Some n =>
    (u32 (nr d) =? u32 n) &&
    match r with
    | Allow _ | AllowNoX32 _ => true
    | AllowArg _ a v =>
      (lo32 (nth a (args d) 0) =? u32 (Z.land v 0xffffffff)) &&
      (hi32 (nth a (args d) 0)
         =? u32 (Z.land (u32 (Z.shiftr (u64 v) 32)) 0xffffffff))
    end
  end.

(** x86-64: little endian, AUDIT_ARCH_X86_64, asm/unistd_64.h. *)
Definition AUDIT_ARCH_X86_64 : Z := 0xC000003E.

Definition unistd_x86_64 : list (string * Z) :=
  [ ("read", 0); ("write", 1); ("close", 3); ("fstat", 5); ("mmap", 9);
    ("munmap", 11); ("brk", 12); ("rt_sigreturn", 15); ("ioctl", 16);
    ("readv", 19); ("writev", 20); ("getpid", 39); ("socket", 41);
    ("accept", 43); ("sendto", 44); ("recvfrom", 45); ("sendmsg", 46);
    ("recvmsg", 47); ("shutdown", 48); ("bind", 49); ("wait4", 61);
    ("uname", 63); ("fcntl", 72); ("gettimeofday", 96);
    ("clock_gettime", 228); ("exit_group", 231); ("ppoll", 271) ].

Definition x86_64 : platform :=
  {| BYTE_ORDER := LITTLE_ENDIAN;
     SECCOMP_AUDIT_ARCH := AUDIT_ARCH_X86_64;
     NR := list_to_map unistd_x86_64;
     X32_SYSCALL_BIT := None |}.

(** A call of [n] with first arguments [a0] and [a1], made on x86-64. *)
Definition call_x86_64 (n a0 a1 : Z) : seccomp_data :=
  {| nr := n; arch := AUDIT_ARCH_X86_64; instruction_pointer := 0;
     args := [a0; a1; 0; 0; 0; 0] |}.


(** ** Processes, the kernel and the privsep channel *)

(** errno.h (asm-generic); ENOTSUP is EOPNOTSUPP on Linux. *)
Definition EBADF : Z := 9.
Definition EINVAL : Z := 22.
Definition ENOSYS : Z := 38.
Definition ENOTSUP : Z := 95.

(** privsep.h: the command of a netlink (route) request. *)
Definition PS_ROUTE : Z := 0x0011.

(** struct msghdr, reduced to the bytes its iovec carries. *)
Record msghdr := mk_msghdr { msg_iov : list Byte.byte }.

(** struct ps_msghdr: command, 64-bit flags, payload length. *)
Record ps_msghdr := mk_psm { ps_cmd : Z; ps_flags : Z; ps_datalen : Z }.

(** The response of the relay: success with a byte count and the
    returned data, or failure with an error code. *)
Inductive response :=
| RespOk (count : nat) (data : list Byte.byte)
| RespFail (e : Z).

Inductive prctl_op :=
| PR_SET_NO_NEW_PRIVS (on : Z)
| PR_SET_SECCOMP_FILTER (prog : sock_fprog).

(** What a process did to the outside, oldest first. *)
Inductive event :=
| EvSocket (protocol : Z) (fd : nat)
| EvSocketFailed (protocol : Z) (e : Z)
| EvSendmsg (fd : Z) (msg : msghdr) (r : Z)
| EvGetnetlink (fd : Z) (r : Z)
| EvClose (fd : Z) (r : Z)
| EvPrctl (op : prctl_op) (r : Z)
| EvPsSend (psm : ps_msghdr) (msg : msghdr) (r : Z)
| EvPsRead (resp : response).

(** A process: its errno, its open descriptors, its sandbox state, the
    responses waiting on its privsep descriptor, and what it has done. *)
Record proc := mk_proc {
  p_errno : Z;
  p_fds : gset nat;
  p_no_new_privs : bool;
  p_filters : list sock_fprog;
  p_rx : list response;
  p_log : list event
}.

(** The answers of the outside world: [inl n] is a successful byte count,
    [inr e] (or [Some e]) a failure with errno [e]. *)
Record kernel := mk_kernel {
  k_linksocket : proc -> Z -> option Z;
  k_sendmsg : proc -> nat -> msghdr -> nat + Z;
  k_getnetlink : proc -> nat -> nat + Z;
  k_prctl : proc -> prctl_op -> option Z;
  k_ps_sendmsg : proc -> ps_msghdr -> msghdr -> nat + Z
}.

(** Sequential C code over a process: a state monad. *)
Definition M (A : Type) : Type := proc -> A * proc.

#[global] Instance M_ret : MRet M := fun A (a : A) w => (a, w).

#[global] Instance M_bind : MBind M := fun A B (f : A -> M B) (m : M A) w =>
  let '(a, w') := m w in f a w'.

Definition set_errno (e : Z) : M unit := fun w =>
  (tt, {| p_errno := e; p_fds := p_fds w;
          p_no_new_privs := p_no_new_privs w; p_filters := p_filters w;
          p_rx := p_rx w; p_log := p_log w |}).

Definition get_errno : M Z := fun w => (p_errno w, w).

Definition emit (ev : event) : M unit := fun w =>
  (tt, {| p_errno := p_errno w; p_fds := p_fds w;
          p_no_new_privs := p_no_new_privs w; p_filters := p_filters w;
          p_rx := p_rx w; p_log := p_log w ++ [ev] |}).

Definition set_fds (X : gset nat) : M unit := fun w =>
  (tt, {| p_errno := p_errno w; p_fds := X;
          p_no_new_privs := p_no_new_privs w; p_filters := p_filters w;
          p_rx := p_rx w; p_log := p_log w |}).

Definition is_open (w : proc) (s : Z) : bool :=
  (0 <=? s) && bool_decide (Z.to_nat s ∈ p_fds w).

(** Modelled from the spec: [if_linksocket] (if-linux.c) opens a fresh
    kernel routing-notification socket for [protocol]; it returns the new
    descriptor, or -1 with errno set. *)
Definition if_linksocket (K : kernel) (protocol : Z) : M Z := fun w =>
  match k_linksocket K w protocol with
  | Some e => (emit (EvSocketFailed protocol e) ;; set_errno e ;; mret (-1)) w
  | None =>
    let s := fresh (p_fds w) in
    (emit (EvSocket protocol s) ;; set_fds ({[s]} ∪ p_fds w) ;;
     mret (Z.of_nat s)) w
  end.

(** sendmsg(2) with flags 0. *)
Definition sendmsg (K : kernel) (s : Z) (msg : msghdr) : M Z := fun w =>
  if is_open w s then
    match k_sendmsg K w (Z.to_nat s) msg with
    | inl n => (emit (EvSendmsg s msg (Z.of_nat n)) ;; mret (Z.of_nat n)) w
    | inr e => (emit (EvSendmsg s msg (-1)) ;; set_errno e ;; mret (-1)) w
    end
  else (emit (EvSendmsg s msg (-1)) ;; set_errno EBADF ;; mret (-1)) w.

(** Modelled from the spec: [if_getnetlink] (if-linux.c) reads the
    kernel's reply from the socket into the buffer; it returns the byte
    count, or -1 with errno set. *)
Definition if_getnetlink (K : kernel) (s : Z) : M Z := fun w =>
  if is_open w s then
    match k_getnetlink K w (Z.to_nat s) with
    | inl n => (emit (EvGetnetlink s (Z.of_nat n)) ;; mret (Z.of_nat n)) w
    | inr e => (emit (EvGetnetlink s (-1)) ;; set_errno e ;; mret (-1)) w
    end
  else (emit (EvGetnetlink s (-1)) ;; set_errno EBADF ;; mret (-1)) w.

(** close(2) *)
Definition close (s : Z) : M Z := fun w =>
  if is_open w s then
    (emit (EvClose s 0) ;; set_fds (p_fds w ∖ {[Z.to_nat s]}) ;; mret 0) w
  else (emit (EvClose s (-1)) ;; set_errno EBADF ;; mret (-1)) w.

(** *** The privileged side *)

Definition ps_root_dosendnetlink (K : kernel) (protocol : Z) (msg : msghdr)
  : M Z :=
  s ← if_linksocket K protocol;
  if s =? -1 then mret (-1)
  else
    r ← sendmsg K s msg;
    if r =? -1 then
      (* retval = -1; goto out *)
      close s ;; mret (-1)
    else
      retval ← if_getnetlink K s;
      close s ;; mret retval.

Definition ps_root_os (K : kernel) (psm : ps_msghdr) (msg : msghdr) : M Z :=
  if ps_cmd psm =? PS_ROUTE then
    ps_root_dosendnetlink K (to_int (ps_flags psm)) msg
  else
    set_errno ENOTSUP ;; mret (-1).

(** Requests handled one after the other; the results, oldest first. *)
Fixpoint ps_root_os_loop (K : kernel) (reqs : list (ps_msghdr * msghdr))
  : M (list Z) :=
  match reqs with
  | [] => mret []
  | (psm, msg) :: reqs' =>
    r ← ps_root_os K psm msg;
    rs ← ps_root_os_loop K reqs';
    mret (r :: rs)
  end.

(** *** The unprivileged side *)

(** Modelled from the spec: [ps_sendmsg] (privsep.c) serialises the header
    (command, 64-bit flags, payload length) and the payload onto the
    channel to the relay; it returns the bytes written, or -1 with errno
    set. *)
Definition ps_sendmsg (K : kernel) (cmd flags : Z) (msg : msghdr) : M Z :=
  fun w =>
  let psm := {| ps_cmd := u16 cmd; ps_flags := flags;
                ps_datalen := Z.of_nat (length (msg_iov msg)) |} in
  match k_ps_sendmsg K w psm msg with
  | inl n => (emit (EvPsSend psm msg (Z.of_nat n)) ;; mret (Z.of_nat n)) w
  | inr e => (emit (EvPsSend psm msg (-1)) ;; set_errno e ;; mret (-1)) w
  end.

(** Modelled from the spec: [ps_root_readerror] (privsep-root.c) blocks
    until the relay's response is on the channel, [None] being a caller
    that waits for ever; a success yields its byte count, a failure -1 with
    the relay's error code as the local errno. *)
Definition ps_root_readerror (w : proc) : option (Z * proc) :=
  match p_rx w with
  | [] => None
  | resp :: rest =>
    let w' := {| p_errno := match resp with
                            | RespOk _ _ => p_errno w
                            | RespFail e => e
                            end;
                 p_fds := p_fds w; p_no_new_privs := p_no_new_privs w;
                 p_filters := p_filters w; p_rx := rest;
                 p_log := p_log w ++ [EvPsRead resp] |} in
    Some (match resp with
          | RespOk n _ => Z.of_nat n
          | RespFail _ => -1
          end, w')
  end.

Definition ps_root_sendnetlink (K : kernel) (protocol : Z) (msg : msghdr)
    (w : proc) : option (Z * proc) :=
  let '(r, w1) := ps_sendmsg K PS_ROUTE (to_ulong protocol) msg w in
  if r =? -1 then Some (-1, w1)
  else ps_root_readerror w1.

(** *** Entering the sandbox *)

(** prctl(2), for the two options the installer uses, as answered to a
    caller that no installed filter keeps from calling prctl: the first
    call of the installer. Under the filter of this file, which has no row
    for prctl, the call is killed and does not return. *)
Definition prctl (K : kernel) (op : prctl_op) : M Z := fun w =>
  match k_prctl K w op with
  | Some e => (emit (EvPrctl op (-1)) ;; set_errno e ;; mret (-1)) w
  | None =>
    (0, {| p_errno := p_errno w; p_fds := p_fds w;
           p_no_new_privs :=
             match op with
             | PR_SET_NO_NEW_PRIVS on => negb (on =? 0) || p_no_new_privs w
             | PR_SET_SECCOMP_FILTER _ => p_no_new_privs w
             end;
           p_filters :=
             match op with
             | PR_SET_NO_NEW_PRIVS _ => p_filters w
             | PR_SET_SECCOMP_FILTER prog => prog :: p_filters w
             end;
           p_rx := p_rx w; p_log := p_log w ++ [EvPrctl op 0] |})
  end.

Definition ps_seccomp_enter (K : kernel) (P : platform) : M Z :=
  r1 ← prctl K (PR_SET_NO_NEW_PRIVS 1);
  failed ← (if r1 =? -1 then mret true
            else r2 ← prctl K (PR_SET_SECCOMP_FILTER (ps_seccomp_prog P));
                 mret (r2 =? -1));
  if failed : bool then
    e ← get_errno;
    (if e =? EINVAL then set_errno ENOSYS else mret tt) ;;
    mret (-1)
  else mret 0.

(** *** Sample processes and kernels *)

Definition proc0 : proc :=
  {| p_errno := 0; p_fds := {[0%nat; 1%nat; 2%nat]};
     p_no_new_privs := false; p_filters := []; p_rx := []; p_log := [] |}.

(** A kernel where everything succeeds. *)
Definition kernel_ok : kernel :=
  {| k_linksocket := fun _ _ => None;
     k_sendmsg := fun _ _ msg => inl (length (msg_iov msg));
     k_getnetlink := fun _ _ => inl 20%nat;
     k_prctl := fun _ _ => None;
     k_ps_sendmsg := fun _ _ msg => inl (20 + length (msg_iov msg))%nat |}.

(** A kernel whose sendmsg fails with [e]. *)
Definition kernel_send_fails (e : Z) : kernel :=
  {| k_linksocket := fun _ _ => None;
     k_sendmsg := fun _ _ _ => inr e;
     k_getnetlink := fun _ _ => inl 20%nat;
     k_prctl := fun _ _ => None;
     k_ps_sendmsg := fun _ _ _ => inr e |}.

(** A kernel without seccomp filters: the second prctl is refused. *)
Definition kernel_no_seccomp : kernel :=
  {| k_linksocket := fun _ _ => None;
     k_sendmsg := fun _ _ msg => inl (length (msg_iov msg));
     k_getnetlink := fun _ _ => inl 20%nat;
     k_prctl := fun _ op =>
       match op with
       | PR_SET_NO_NEW_PRIVS _ => None
       | PR_SET_SECCOMP_FILTER _ => Some EINVAL
       end;
     k_ps_sendmsg := fun _ _ msg => inl (20 + length (msg_iov msg))%nat |}.

Definition msg0 : msghdr := {| msg_iov := [Byte.x01; Byte.x02] |}.


(** The constrained rows of a table read their argument inside
    [args[0..5]]. *)
Definition row_ok (r : row) : bool :=
  match r with
  | AllowArg _ a _ => (a <? 6)%nat
  | _ => true
  end.

(** Whether some row of the table compares against the number [v]. *)
Definition nr_listed (P : platform) (t : list row) (v : Z) : bool :=
  existsb (fun r => match row_nr P r with
                    | Some n => u32 n =? v
                    | None => false
                    end) t.

(** ** What the kernel checks, and what the table means *)

(** linux/bpf_common.h and sizeof(struct seccomp_data). *)
Definition BPF_MAXINSNS : Z := 4096.
Definition sizeof_seccomp_data : Z := 64.

(** The checks a seccomp filter of [n] instructions has to pass at the
    instruction [i] at [pc] to be installed: a known opcode, a load of an
    aligned word inside seccomp_data, both branches of a jump inside the
    program. *)
Definition insn_ok (n pc : nat) (i : sock_filter) : bool :=
  if code i =? BPF_LD + BPF_W + BPF_ABS then
    (0 <=? k i) && (k i <? sizeof_seccomp_data) && (k i mod 4 =? 0)
  else if code i =? BPF_JMP + BPF_JEQ + BPF_K then
    (pc + 1 + Z.to_nat (jt i) <? n)%nat && (pc + 1 + Z.to_nat (jf i) <? n)%nat
  else code i =? BPF_RET + BPF_K.

(** The instructions a row expands to when its guard holds. *)
Definition row_size (r : row) : nat :=
  match r with
  | AllowArg _ _ _ => 7%nat
  | _ => 2%nat
  end.

Definition table_size (t : list row) : nat :=
  list_sum (map row_size t).

(** A row as a predicate on calls: the syscall number is the row's and,
    for a constrained row, the argument is the required 64-bit value. *)
Definition row_admits (P : platform) (d : seccomp_data) (r : row) : Prop :=
  exists n, row_nr P r = Some n /\ u32 (nr d) = u32 n /\
    match r with
    | AllowArg _ a v => u64 (nth a (args d) 0) = u64 v
    | _ => True
    end.

(** The constrained rows of the source all constrain [args[1]]. *)
Definition row_reads_arg1 (r : row) : bool :=
  match r with
  | AllowArg _ a _ => (a =? 1)%nat
  | _ => true
  end.

(** The rows of a table on other syscalls than [s]. *)
Definition other_rows (s : string) (t : list row) : list row :=
  List.filter (fun r => bool_decide (row_syscall r <> s)) t.

(** The request codes of the constrained rows. *)
Definition ioctl_codes : list Z :=
  [SIOCGIFFLAGS; SIOCGIFHWADDR; SIOCGIFINDEX; SIOCGIFMTU; SIOCGIFVLAN].

(** The same target with the other byte order. *)
Definition with_byte_order (bo : byte_order) (P : platform) : platform :=
  {| BYTE_ORDER := bo; SECCOMP_AUDIT_ARCH := SECCOMP_AUDIT_ARCH P;
     NR := NR P; X32_SYSCALL_BIT := X32_SYSCALL_BIT P |}.

(** x32: the x86-64 kernel entered with ILP32 numbers, asm/unistd_x32.h;
    the numbers carry __X32_SYSCALL_BIT. *)
Definition X32_BIT : Z := 0x40000000.

Definition unistd_x32 : list (string * Z) :=
  map (fun '(s, n) => (s, X32_BIT + n))
    [ ("read", 0); ("write", 1); ("close", 3); ("fstat", 5); ("mmap", 9);
      ("munmap", 11); ("brk", 12); ("getpid", 39); ("socket", 41);
      ("accept", 43); ("sendto", 44); ("shutdown", 48); ("bind", 49);
      ("wait4", 61); ("uname", 63); ("fcntl", 72); ("gettimeofday", 96);
      ("clock_gettime", 228); ("exit_group", 231); ("ppoll", 271);
      ("rt_sigreturn", 513); ("ioctl", 514); ("readv", 515);
      ("writev", 516); ("recvfrom", 517); ("sendmsg", 518);
      ("recvmsg", 519) ].

Definition x32 : platform :=
  {| BYTE_ORDER := LITTLE_ENDIAN;
     SECCOMP_AUDIT_ARCH := AUDIT_ARCH_X86_64;
     NR := list_to_map unistd_x32;
     X32_SYSCALL_BIT := Some X32_BIT |}.


(** A close that failed, as a log records it. *)
Definition is_bad_close_ev (ev : event) : bool :=
  match ev with EvClose _ r => negb (r =? 0) | _ => false end.

Definition bad_closes (l : list event) : nat :=
  length (List.filter is_bad_close_ev l).

(** Sockets opened and descriptors closed, as a log records them. *)
Definition is_socket_ev (ev : event) : bool :=
  match ev with EvSocket _ _ => true | _ => false end.

Definition is_close_ev (ev : event) : bool :=
  match ev with EvClose _ 0 => true | _ => false end.

Definition opened (l : list event) : nat :=
  length (List.filter is_socket_ev l).

Definition closed (l : list event) : nat :=
  length (List.filter is_close_ev l).

(** * Properties *)

(** ** Words *)

Lemma u32_idem x : u32 (u32 x) = u32 x.
Proof. unfold u32. apply Z.mod_mod. lia. Qed.

Lemma u32_range x : 0 <= u32 x < 2 ^ 32.
Proof. unfold u32. apply Z.mod_pos_bound. lia. Qed.

Lemma land_ffffffff x : Z.land x 0xffffffff = u32 x.
Proof. change 0xffffffff with (Z.ones 32). apply Z.land_ones. lia. Qed.

Lemma u64_halves x : u64 x = hi32 x * 2 ^ 32 + lo32 x.
Proof.
  unfold hi32, lo32, u32, u64.
  rewrite Z.shiftr_div_pow2 by lia.
  change (2 ^ 64) with (2 ^ 32 * 2 ^ 32).
  rewrite Z.rem_mul_r by lia.
  pose proof (Z.mod_pos_bound x (2 ^ 32) ltac:(lia)) as Hlo.
  pose proof (Z.mod_pos_bound (x / 2 ^ 32) (2 ^ 32) ltac:(lia)) as Hhi.
  set (l := x mod 2 ^ 32) in *. set (h := (x / 2 ^ 32) mod 2 ^ 32) in *.
  replace ((l + 2 ^ 32 * h) / 2 ^ 32) with h
    by (apply Z.div_unique with l; lia).
  rewrite (Z.mod_small h) by lia. lia.
Qed.

Lemma halves_eq_iff x v :
  (lo32 x = lo32 v /\ hi32 x = hi32 v) <-> u64 x = u64 v.
Proof.
  split.
  - intros [Hl Hh]. rewrite !u64_halves. congruence.
  - intros H. pose proof (u64_halves x) as Hx. pose proof (u64_halves v) as Hv.
    assert (Hb : forall y, 0 <= lo32 y < 2 ^ 32 /\ 0 <= hi32 y < 2 ^ 32)
      by (intros y; split; apply u32_range).
    pose proof (Hb x) as [? ?]. pose proof (Hb v) as [? ?]. lia.
Qed.

(** The two constants the constrained rule compares against are the halves
    of the required value. *)
Lemma arg_lo_const v : u32 (Z.land v 0xffffffff) = lo32 v.
Proof. rewrite land_ffffffff. apply u32_idem. Qed.

Lemma arg_hi_const v :
  u32 (Z.land (u32 (Z.shiftr (u64 v) 32)) 0xffffffff) = hi32 v.
Proof. rewrite land_ffffffff. unfold hi32. by rewrite !u32_idem. Qed.

Lemma to_int_range x : - 2 ^ 31 <= to_int x < 2 ^ 31.
Proof.
  unfold to_int. pose proof (Z.mod_pos_bound (x + 2 ^ 31) (2 ^ 32)). lia.
Qed.

Lemma to_int_u32 x y : u32 x = u32 y -> to_int x = to_int y.
Proof.
  unfold to_int, u32. intros H.
  rewrite <- (Zplus_mod_idemp_l x), <- (Zplus_mod_idemp_l y). by rewrite H.
Qed.

Lemma to_int_to_ulong p : - 2 ^ 31 <= p < 2 ^ 31 -> to_int (to_ulong p) = p.
Proof.
  intros Hp. unfold to_int, to_ulong, u64.
  change (2 ^ 64) with (2 ^ 32 * 2 ^ 32).
  rewrite <- Zplus_mod_idemp_l.
  rewrite Z.rem_mul_r by lia.
  rewrite Z.mul_comm, Z_mod_plus_full, Z.mod_mod by lia.
  rewrite Zplus_mod_idemp_l.
  rewrite Z.mod_small by lia. lia.
Qed.

(** ** The filter machine *)

Lemma bpf_run_add n m bo prog d pc A :
  bpf_run (n + m) bo prog d pc A =
  match bpf_run n bo prog d pc A with
  | Next pc' A' => bpf_run m bo prog d pc' A'
  | o => o
  end.
Proof.
  revert pc A. induction n as [|n IH]; intros pc A; [done|].
  simpl. destruct (bpf_step bo prog d pc A); auto.
Qed.

Lemma bpf_run_ret_mono n m bo prog d pc A v :
  bpf_run n bo prog d pc A = Ret v -> (n <= m)%nat ->
  bpf_run m bo prog d pc A = Ret v.
Proof.
  intros H Hle. replace m with (n + (m - n))%nat by lia.
  by rewrite bpf_run_add, H.
Qed.

Lemma step_jeq bo prog d pc A kk t f :
  prog !! pc = Some (BPF_JUMP (BPF_JMP + BPF_JEQ + BPF_K) kk t f) ->
  bpf_step bo prog d pc A
  = Next (S pc + Z.to_nat (if A =? u32 kk then u8 t else u8 f)) A.
Proof. intros H. unfold bpf_step. by rewrite H. Qed.

Lemma step_ld bo prog d pc A off w :
  prog !! pc = Some (BPF_STMT (BPF_LD + BPF_W + BPF_ABS) off) ->
  seccomp_load bo d (u32 off) = Some w ->
  bpf_step bo prog d pc A = Next (S pc) w.
Proof. intros H Hw. unfold bpf_step. rewrite H. simpl. by rewrite Hw. Qed.

Lemma step_ret bo prog d pc A v :
  prog !! pc = Some (BPF_STMT (BPF_RET + BPF_K) v) ->
  bpf_step bo prog d pc A = Ret (u32 v).
Proof. intros H. unfold bpf_step. by rewrite H. Qed.

Lemma lookup_mid {X} (pre body post : list X) (i : nat) x :
  body !! i = Some x -> (pre ++ body ++ post) !! (length pre + i)%nat = Some x.
Proof.
  intros H. rewrite lookup_app_r by lia.
  replace (length pre + i - length pre)%nat with i by lia.
  by apply lookup_app_l_Some.
Qed.

Lemma load_nr bo d : seccomp_load bo d (u32 offsetof_nr) = Some (u32 (nr d)).
Proof. reflexivity. Qed.

Lemma load_arch bo d :
  seccomp_load bo d (u32 offsetof_arch) = Some (u32 (arch d)).
Proof. reflexivity. Qed.

Lemma load_arg_lo bo d a :
  (a < 6)%nat ->
  seccomp_load bo d (u32 (offsetof_args a + SECCOMP_ARG_LO bo))
  = Some (lo32 (nth a (args d) 0)).
Proof.
  intros Ha. do 6 (destruct a as [|a]; [by destruct bo|]). lia.
Qed.

Lemma load_arg_hi bo d a :
  (a < 6)%nat ->
  seccomp_load bo d (u32 (offsetof_args a + SECCOMP_ARG_HI bo))
  = Some (hi32 (nth a (args d) 0)).
Proof.
  intros Ha. do 6 (destruct a as [|a]; [by destruct bo|]). lia.
Qed.

Section InContext.
Context (bo : byte_order) (d : seccomp_data).
Context (pre body post : list sock_filter).

Lemma ctx_jeq i A kk t f :
  body !! i = Some (BPF_JUMP (BPF_JMP + BPF_JEQ + BPF_K) kk t f) ->
  bpf_step bo (pre ++ body ++ post) d (length pre + i) A
  = Next (length pre
          + (S i + Z.to_nat (if A =? u32 kk then u8 t else u8 f))) A.
Proof.
  intros H. erewrite step_jeq by (by apply lookup_mid). f_equal. lia.
Qed.

Lemma ctx_ld i A off w :
  body !! i = Some (BPF_STMT (BPF_LD + BPF_W + BPF_ABS) off) ->
  seccomp_load bo d (u32 off) = Some w ->
  bpf_step bo (pre ++ body ++ post) d (length pre + i) A
  = Next (length pre + S i) w.
Proof.
  intros H Hw. erewrite step_ld by (try (by apply lookup_mid); done).
  f_equal. lia.
Qed.

Lemma ctx_ret i A v :
  body !! i = Some (BPF_STMT (BPF_RET + BPF_K) v) ->
  bpf_step bo (pre ++ body ++ post) d (length pre + i) A = Ret (u32 v).
Proof. intros H. erewrite step_ret by (by apply lookup_mid). done. Qed.
End InContext.

Lemma bpf_run_0 bo prog d pc A : bpf_run 0 bo prog d pc A = Next pc A.
Proof. reflexivity. Qed.

Lemma bpf_run_S n bo prog d pc A :
  bpf_run (S n) bo prog d pc A =
  match bpf_step bo prog d pc A with
  | Next pc' A' => bpf_run n bo prog d pc' A'
  | o => o
  end.
Proof. reflexivity. Qed.

(** An unconditional rule with the accumulator on its number allows. *)
Lemma allow_hit bo d pre post n A :
  A = u32 n ->
  bpf_run 2 bo (pre ++ SECCOMP_ALLOW n ++ post) d (length pre) A
  = Ret SECCOMP_RET_ALLOW.
Proof.
  intros ->. rewrite <- (Nat.add_0_r (length pre)) at 1.
  rewrite bpf_run_S. erewrite ctx_jeq by reflexivity.
  rewrite Z.eqb_refl. change (S 0 + Z.to_nat (u8 0))%nat with 1%nat.
  rewrite bpf_run_S. erewrite ctx_ret by reflexivity. reflexivity.
Qed.

(** On any other number it passes control, accumulator untouched, to the
    instruction after it. *)
Lemma allow_miss bo d pre post n A :
  A <> u32 n ->
  bpf_run 1 bo (pre ++ SECCOMP_ALLOW n ++ post) d (length pre) A
  = Next (length pre + 2) A.
Proof.
  intros HA. rewrite <- (Nat.add_0_r (length pre)) at 1.
  rewrite bpf_run_S. erewrite ctx_jeq by reflexivity.
  apply Z.eqb_neq in HA. rewrite HA. reflexivity.
Qed.

Section AllowArg.
Context (bo : byte_order) (d : seccomp_data).
Context (pre post : list sock_filter) (n : Z) (a : nat) (v : Z).
Context (Ha : (a < 6)%nat).

Let prog := pre ++ SECCOMP_ALLOW_ARG bo n a v ++ post.
Let x := nth a (args d) 0.

Lemma allow_arg_nr_miss A :
  A <> u32 n ->
  bpf_run 1 bo prog d (length pre) A = Next (length pre + 7) A.
Proof.
  intros HA. subst prog. rewrite <- (Nat.add_0_r (length pre)) at 1.
  rewrite bpf_run_S. erewrite ctx_jeq by reflexivity.
  apply Z.eqb_neq in HA. rewrite HA. reflexivity.
Qed.

(** The first three instructions: number matched, low word loaded and
    compared. *)
Lemma allow_arg_lo_cmp :
  bpf_run 3 bo prog d (length pre) (u32 n)
  = Next (length pre + (if lo32 x =? lo32 v then 3 else 6)) (lo32 x).
Proof.
  subst prog. rewrite <- (Nat.add_0_r (length pre)) at 1.
  rewrite bpf_run_S. erewrite ctx_jeq by reflexivity.
  rewrite Z.eqb_refl. change (S 0 + Z.to_nat (u8 0))%nat with 1%nat.
  rewrite bpf_run_S.
  erewrite ctx_ld by (try reflexivity; by apply load_arg_lo).
  rewrite bpf_run_S. erewrite ctx_jeq by reflexivity.
  rewrite arg_lo_const. fold x. rewrite bpf_run_0.
  by destruct (lo32 x =? lo32 v).
Qed.

Lemma allow_arg_lo_miss :
  lo32 x <> lo32 v ->
  bpf_run 4 bo prog d (length pre) (u32 n)
  = Next (length pre + 7) (u32 (nr d)).
Proof.
  intros Hl. change 4%nat with (3 + 1)%nat.
  rewrite bpf_run_add, allow_arg_lo_cmp.
  apply Z.eqb_neq in Hl. rewrite Hl. subst prog.
  rewrite bpf_run_S. erewrite ctx_ld by (try reflexivity; apply load_nr).
  reflexivity.
Qed.

(** Low word matched: high word loaded and compared. *)
Lemma allow_arg_hi_cmp :
  lo32 x = lo32 v ->
  bpf_run 5 bo prog d (length pre) (u32 n)
  = Next (length pre + (if hi32 x =? hi32 v then 5 else 6)) (hi32 x).
Proof.
  intros Hl. change 5%nat with (3 + 2)%nat.
  rewrite bpf_run_add, allow_arg_lo_cmp.
  apply Z.eqb_eq in Hl. rewrite Hl. subst prog.
  rewrite bpf_run_S.
  erewrite ctx_ld by (try reflexivity; by apply load_arg_hi).
  rewrite bpf_run_S. erewrite ctx_jeq by reflexivity.
  rewrite arg_hi_const. fold x. rewrite bpf_run_0.
  by destruct (hi32 x =? hi32 v).
Qed.

Lemma allow_arg_hi_miss :
  lo32 x = lo32 v -> hi32 x <> hi32 v ->
  bpf_run 6 bo prog d (length pre) (u32 n)
  = Next (length pre + 7) (u32 (nr d)).
Proof.
  intros Hl Hh. change 6%nat with (5 + 1)%nat.
  rewrite bpf_run_add, allow_arg_hi_cmp by done.
  apply Z.eqb_neq in Hh. rewrite Hh. subst prog.
  rewrite bpf_run_S. erewrite ctx_ld by (try reflexivity; apply load_nr).
  reflexivity.
Qed.

Lemma allow_arg_hit :
  lo32 x = lo32 v -> hi32 x = hi32 v ->
  bpf_run 6 bo prog d (length pre) (u32 n) = Ret SECCOMP_RET_ALLOW.
Proof.
  intros Hl Hh. change 6%nat with (5 + 1)%nat.
  rewrite bpf_run_add, allow_arg_hi_cmp by done.
  apply Z.eqb_eq in Hh. rewrite Hh. subst prog.
  rewrite bpf_run_S. erewrite ctx_ret by reflexivity. reflexivity.
Qed.
End AllowArg.

(** ** Rows and tables *)

Lemma expand_row_length P r :
  length (expand_row P r) = 0%nat \/ length (expand_row P r) = 2%nat
  \/ length (expand_row P r) = 7%nat.
Proof.
  unfold expand_row. destruct (row_nr P r); [|by left].
  destruct r; auto.
Qed.

Ltac count_insns := cbn [length SECCOMP_ALLOW SECCOMP_ALLOW_ARG]; lia.

(** A row either allows the call or hands it, with the syscall number in
    the accumulator, to whatever follows it. *)
Lemma row_run P d pre post r :
  row_ok r = true ->
  let bo := BYTE_ORDER P in
  let prog := pre ++ expand_row P r ++ post in
  if row_allows P d r then
    bpf_run (length (expand_row P r)) bo prog d (length pre) (u32 (nr d))
    = Ret SECCOMP_RET_ALLOW
  else
    exists n, (n <= length (expand_row P r))%nat /\
      bpf_run n bo prog d (length pre) (u32 (nr d))
      = Next (length pre + length (expand_row P r)) (u32 (nr d)).
Proof.
  intros Hok bo prog. subst prog bo. unfold row_allows, expand_row.
  destruct (row_nr P r) as [n|].
  2:{ exists 0%nat. split; [count_insns|].
      rewrite bpf_run_0. cbn [length]. by rewrite Nat.add_0_r. }
  destruct (Z.eqb_spec (u32 (nr d)) (u32 n)) as [Hn|Hn]; cbn [andb].
  - destruct r as [s|s|s a v].
    + by apply allow_hit.
    + by apply allow_hit.
    + cbn [row_ok] in Hok. apply Nat.ltb_lt in Hok.
      rewrite arg_lo_const, arg_hi_const.
      destruct (Z.eqb_spec (lo32 (nth a (args d) 0)) (lo32 v)) as [Hl|Hl];
        cbn [andb].
      * destruct (Z.eqb_spec (hi32 (nth a (args d) 0)) (hi32 v)) as [Hh|Hh].
        -- eapply bpf_run_ret_mono with (n := 6%nat); [|count_insns].
           rewrite Hn. by apply allow_arg_hit.
        -- exists 6%nat. split; [count_insns|].
           pose proof (allow_arg_hi_miss (BYTE_ORDER P) d pre post n a v
                         Hok Hl Hh) as H.
           by rewrite <- Hn in H.
      * exists 4%nat. split; [count_insns|].
        pose proof (allow_arg_lo_miss (BYTE_ORDER P) d pre post n a v
                      Hok Hl) as H.
        by rewrite <- Hn in H.
  - destruct r as [s|s|s a v].
    + exists 1%nat. split; [count_insns|]. by apply allow_miss.
    + exists 1%nat. split; [count_insns|]. by apply allow_miss.
    + exists 1%nat. split; [count_insns|]. by apply allow_arg_nr_miss.
Qed.

(** The rules of a table followed by the deny: allow exactly when some row
    allows, kill otherwise, within as many steps as there are instructions. *)
Lemma rows_run P d t :
  forallb row_ok t = true ->
  forall pre,
  bpf_run (length (flat_map (expand_row P) t) + 1) (BYTE_ORDER P)
    (pre ++ flat_map (expand_row P) t ++ [filter_deny]) d
    (length pre) (u32 (nr d))
  = Ret (if existsb (row_allows P d) t
         then SECCOMP_RET_ALLOW else SECCOMP_FILTER_FAIL).
Proof.
  induction t as [|r t IH]; intros Hok pre.
  - cbn [flat_map existsb length Nat.add app].
    rewrite <- (Nat.add_0_r (length pre)).
    rewrite bpf_run_S.
    rewrite (ctx_ret (BYTE_ORDER P) d pre [filter_deny] [] 0 _
               SECCOMP_FILTER_FAIL) by reflexivity.
    reflexivity.
  - cbn [forallb] in Hok. apply andb_prop in Hok as [Hr Ht].
    cbn [flat_map existsb]. rewrite length_app, <- app_assoc.
    pose proof (row_run P d pre
                  (flat_map (expand_row P) t ++ [filter_deny]) r Hr) as Hrow.
    cbv zeta in Hrow. destruct (row_allows P d r); cbn [orb].
    + eapply bpf_run_ret_mono; [exact Hrow|lia].
    + destruct Hrow as (n & Hn & Hrun).
      eapply bpf_run_ret_mono with
        (n := (n + (length (flat_map (expand_row P) t) + 1))%nat); [|lia].
      rewrite bpf_run_add, Hrun.
      rewrite <- length_app.
      rewrite (app_assoc pre). by apply IH.
Qed.

(** After the head of the filter: killed on a foreign architecture, at
    the first rule with the syscall number loaded otherwise. *)
Lemma head_run P d rest :
  bpf_run 3 (BYTE_ORDER P) (filter_head P ++ rest) d 0 0
  = if u32 (arch d) =? u32 (SECCOMP_AUDIT_ARCH P)
    then Next 4 (u32 (nr d)) else Ret SECCOMP_FILTER_FAIL.
Proof.
  rewrite bpf_run_S. erewrite step_ld by reflexivity.
  rewrite bpf_run_S. erewrite step_jeq by reflexivity.
  destruct (u32 (arch d) =? u32 (SECCOMP_AUDIT_ARCH P)).
  - rewrite bpf_run_S. erewrite step_ld by reflexivity. reflexivity.
  - rewrite bpf_run_S. erewrite step_ret by reflexivity. reflexivity.
Qed.

Lemma filter_of_length P t :
  length (filter_of P t) = (4 + (length (flat_map (expand_row P) t) + 1))%nat.
Proof. unfold filter_of. by rewrite !length_app. Qed.

(** What the filter built from a table decides, for every call. *)
Lemma filter_of_verdict P t d :
  forallb row_ok t = true ->
  seccomp_run_filter (BYTE_ORDER P) (filter_of P t) d
  = Ret (if (u32 (arch d) =? u32 (SECCOMP_AUDIT_ARCH P))
            && existsb (row_allows P d) t
         then SECCOMP_RET_ALLOW else SECCOMP_FILTER_FAIL).
Proof.
  intros Hok. unfold seccomp_run_filter. rewrite filter_of_length.
  change (4 + ?n)%nat with (3 + (1 + n))%nat.
  rewrite bpf_run_add. unfold filter_of. rewrite head_run.
  destruct (u32 (arch d) =? u32 (SECCOMP_AUDIT_ARCH P)); [|done].
  cbn [andb].
  eapply bpf_run_ret_mono; [|apply Nat.le_add_l with (m := 1%nat)].
  by apply (rows_run P d t Hok (filter_head P)).
Qed.

Lemma ps_seccomp_table_ok : forallb row_ok ps_seccomp_table = true.
Proof. reflexivity. Qed.

Lemma ps_seccomp_verdict P d :
  seccomp_verdict P d
  = Ret (if (u32 (arch d) =? u32 (SECCOMP_AUDIT_ARCH P))
            && existsb (row_allows P d) ps_seccomp_table
         then SECCOMP_RET_ALLOW else SECCOMP_FILTER_FAIL).
Proof. apply filter_of_verdict, ps_seccomp_table_ok. Qed.

Lemma row_allows_listed P d t :
  existsb (row_allows P d) t = true -> nr_listed P t (u32 (nr d)) = true.
Proof.
  unfold nr_listed. rewrite !existsb_exists. intros (r & Hin & Hr).
  exists r. split; [done|]. unfold row_allows in Hr.
  destruct (row_nr P r) as [n|]; [|done].
  apply andb_prop in Hr as [Hr _]. apply Z.eqb_eq in Hr.
  apply Z.eqb_eq. congruence.
Qed.

Lemma bpf_trace_S n bo prog d pc A :
  bpf_trace (S n) bo prog d pc A =
  pc :: match bpf_step bo prog d pc A with
        | Next pc' A' => bpf_trace n bo prog d pc' A'
        | _ => []
        end.
Proof. reflexivity. Qed.

(** The path through the head of the filter. *)
Lemma head_trace P d rest n :
  bpf_trace (3 + n) (BYTE_ORDER P) (filter_head P ++ rest) d 0 0
  = if u32 (arch d) =? u32 (SECCOMP_AUDIT_ARCH P)
    then 0%nat :: 1%nat :: 3%nat
         :: bpf_trace n (BYTE_ORDER P) (filter_head P ++ rest) d 4
              (u32 (nr d))
    else [0; 1; 2]%nat.
Proof.
  change (3 + n)%nat with (S (S (S n))).
  rewrite bpf_trace_S. erewrite step_ld by reflexivity.
  rewrite bpf_trace_S. erewrite step_jeq by reflexivity.
  destruct (u32 (arch d) =? u32 (SECCOMP_AUDIT_ARCH P)).
  - change (S 1 + Z.to_nat (u8 1))%nat with 3%nat.
    rewrite bpf_trace_S. erewrite step_ld by reflexivity. reflexivity.
  - change (S 1 + Z.to_nat (u8 0))%nat with 2%nat.
    rewrite bpf_trace_S. erewrite step_ret by reflexivity. reflexivity.
Qed.

Lemma seccomp_trace_head P t d :
  seccomp_trace (BYTE_ORDER P) (filter_of P t) d
  = if u32 (arch d) =? u32 (SECCOMP_AUDIT_ARCH P)
    then 0%nat :: 1%nat :: 3%nat
         :: bpf_trace (1 + (length (flat_map (expand_row P) t) + 1))
              (BYTE_ORDER P) (filter_of P t) d 4 (u32 (nr d))
    else [0; 1; 2]%nat.
Proof.
  unfold seccomp_trace. rewrite filter_of_length.
  change (4 + ?n)%nat with (3 + (1 + n))%nat.
  unfold filter_of. apply head_trace.
Qed.

(** Rules reached: past a prefix of the table none of whose rows allows,
    the machine stands at the next instruction with the syscall number in
    the accumulator. *)
Lemma rows_reach P d t :
  forallb row_ok t = true ->
  existsb (row_allows P d) t = false ->
  forall pre post, exists n,
    (n <= length (flat_map (expand_row P) t))%nat /\
    bpf_run n (BYTE_ORDER P) (pre ++ flat_map (expand_row P) t ++ post) d
      (length pre) (u32 (nr d))
    = Next (length pre + length (flat_map (expand_row P) t)) (u32 (nr d)).
Proof.
  induction t as [|r t IH]; intros Hok Hno pre post.
  - exists 0%nat. cbn [flat_map length]. split; [lia|].
    by rewrite bpf_run_0, Nat.add_0_r.
  - cbn [forallb] in Hok. apply andb_prop in Hok as [Hr Ht].
    cbn [existsb] in Hno. apply orb_false_elim in Hno as [Hnr Hnt].
    pose proof (row_run P d pre (flat_map (expand_row P) t ++ post) r Hr)
      as Hrow.
    cbv zeta in Hrow. rewrite Hnr in Hrow. destruct Hrow as (n1 & Hn1 & Hrun1).
    destruct (IH Ht Hnt (pre ++ expand_row P r) post) as (n2 & Hn2 & Hrun2).
    exists (n1 + n2)%nat. cbn [flat_map]. rewrite length_app.
    split; [lia|].
    rewrite <- app_assoc, bpf_run_add, Hrun1.
    rewrite <- length_app, (app_assoc pre), Hrun2.
    f_equal. rewrite length_app. lia.
Qed.

Lemma filter_of_last P t : last (filter_of P t) = Some filter_deny.
Proof. unfold filter_of. by rewrite app_assoc, last_snoc. Qed.

(** ** The filter program *)

(** C1. The filter starts with the architecture check: the first two
    instructions load the architecture tag and compare it with the
    target's, a mismatch runs straight into the deny at instruction 2 and
    only a match goes on to instruction 3 and the rules. The deny is the
    last instruction: the program is the head, the rules of the table and
    the deny, in that order, so every allowing return sits strictly between
    the head and the final deny; and a rule (any instruction from 3 on) is
    only ever executed for a call whose architecture passed the check. *)
Theorem filter_arch_first_deny_last (P : platform) :
  let prog := ps_seccomp_filter P in
  let bo := BYTE_ORDER P in
  take 3 prog
    = [ BPF_STMT (BPF_LD + BPF_W + BPF_ABS) offsetof_arch;
        BPF_JUMP (BPF_JMP + BPF_JEQ + BPF_K) (SECCOMP_AUDIT_ARCH P) 1 0;
        BPF_STMT (BPF_RET + BPF_K) SECCOMP_FILTER_FAIL ] /\
  last prog = Some (BPF_STMT (BPF_RET + BPF_K) SECCOMP_FILTER_FAIL) /\
  prog = filter_head P ++ flat_map (expand_row P) ps_seccomp_table
           ++ [filter_deny] /\
  (forall i, prog !! i = Some (BPF_STMT (BPF_RET + BPF_K) SECCOMP_RET_ALLOW) ->
     (4 <= i < length prog - 1)%nat) /\
  (forall d, exists rest,
     seccomp_trace bo prog d
     = if u32 (arch d) =? u32 (SECCOMP_AUDIT_ARCH P)
       then [0; 1; 3]%nat ++ rest else [0; 1; 2]%nat) /\
  (forall d, u32 (arch d) <> u32 (SECCOMP_AUDIT_ARCH P) ->
     seccomp_verdict P d = Ret SECCOMP_FILTER_FAIL) /\
  (forall d pc, pc ∈ seccomp_trace bo prog d -> (3 <= pc)%nat ->
     u32 (arch d) = u32 (SECCOMP_AUDIT_ARCH P)).
Proof.
  intros prog bo. subst prog bo. unfold ps_seccomp_filter.
  split_and!.
  - reflexivity.
  - apply filter_of_last.
  - reflexivity.
  - intros i H. split.
    + destruct i as [|[|[|[|i]]]]; try discriminate H. lia.
    + pose proof (lookup_lt_Some _ _ _ H) as Hlt.
      destruct (decide (i = (length (filter_of P ps_seccomp_table) - 1)%nat))
        as [->|]; [|lia].
      pose proof (filter_of_last P ps_seccomp_table) as Hl.
      rewrite last_lookup in Hl.
      replace (Init.Nat.pred (length (filter_of P ps_seccomp_table)))
        with (length (filter_of P ps_seccomp_table) - 1)%nat in Hl by lia.
      rewrite Hl in H. discriminate H.
  - intros d. rewrite seccomp_trace_head.
    destruct (u32 (arch d) =? u32 (SECCOMP_AUDIT_ARCH P));
      [eexists; reflexivity | by exists []].
  - intros d Hd. rewrite ps_seccomp_verdict.
    apply Z.eqb_neq in Hd. by rewrite Hd.
  - intros d pc Hin Hpc. rewrite seccomp_trace_head in Hin.
    destruct (Z.eqb_spec (u32 (arch d)) (u32 (SECCOMP_AUDIT_ARCH P)));
      [done|].
    repeat (apply elem_of_cons in Hin as [->|Hin]; [lia|]).
    by apply elem_of_nil in Hin.
Qed.

(** A foreign-architecture call on x86-64 is killed after three
    instructions; a native one reaches the rules. *)
Lemma filter_arch_first_deny_last_witness :
  seccomp_verdict x86_64 (mk_data 1 7 0 []) = Ret SECCOMP_FILTER_FAIL /\
  u32 (arch (call_x86_64 1 0 0)) = u32 (SECCOMP_AUDIT_ARCH x86_64).
Proof.
  pose proof (filter_arch_first_deny_last x86_64) as H. cbv zeta in H.
  destruct H as (_ & _ & _ & _ & _ & Hkill & Hreach).
  split.
  - apply Hkill. vm_compute. discriminate.
  - apply (Hreach _ 3%nat); [vm_compute | lia].
    do 2 constructor 2. constructor 1.
Defined.

(** C4. A constrained rule placed anywhere in a program, entered with the
    syscall number in the accumulator and that number being the rule's:
    when the argument equals the required 64-bit value the rule returns
    allow; with any other value it returns nothing and control arrives,
    within the rule's seven instructions, at the instruction that follows
    the rule, which is the next rule and not the final deny. For each of
    the constrained rows of the table (all on the device-control syscall,
    all on the request code in [args[1]]), a call of that syscall with the
    row's request code is allowed by the whole filter. *)
Theorem allow_arg_match_or_fall_through
    (bo : byte_order) (d : seccomp_data) (pre post : list sock_filter)
    (n : Z) (a : nat) (v : Z) :
  (a < 6)%nat ->
  u32 (nr d) = u32 n ->
  let prog := pre ++ SECCOMP_ALLOW_ARG bo n a v ++ post in
  let x := nth a (args d) 0 in
  (u64 x = u64 v ->
     bpf_run 6 bo prog d (length pre) (u32 (nr d)) = Ret SECCOMP_RET_ALLOW) /\
  (u64 x <> u64 v ->
     exists steps, (steps <= 6)%nat /\
       bpf_run steps bo prog d (length pre) (u32 (nr d))
       = Next (length pre + 7) (u32 (nr d))) /\
  prog !! (length pre + 7)%nat = post !! 0%nat /\
  (forall (P : platform) (s : string),
     In (AllowArg s a v) ps_seccomp_table ->
     NR P !! s = Some n ->
     u32 (arch d) = u32 (SECCOMP_AUDIT_ARCH P) ->
     u64 x = u64 v ->
     seccomp_verdict P d = Ret SECCOMP_RET_ALLOW).
Proof.
  intros Ha Hn prog x. split_and!.
  - intros Hx. apply halves_eq_iff in Hx as [Hl Hh].
    rewrite Hn. by apply allow_arg_hit.
  - intros Hx.
    destruct (decide (lo32 x = lo32 v)) as [Hl|Hl].
    + destruct (decide (hi32 x = hi32 v)) as [Hh|Hh].
      * destruct Hx. by apply halves_eq_iff.
      * exists 6%nat. split; [lia|]. rewrite Hn at 1.
        by apply allow_arg_hi_miss.
    + exists 4%nat. split; [lia|]. rewrite Hn at 1.
      by apply allow_arg_lo_miss.
  - subst prog. rewrite lookup_app_r by lia.
    rewrite lookup_app_r by (cbn [length SECCOMP_ALLOW_ARG]; lia).
    f_equal. cbn [length SECCOMP_ALLOW_ARG]. lia.
  - intros P s Hin Hs Harch Hx. rewrite ps_seccomp_verdict.
    apply Z.eqb_eq in Harch. rewrite Harch. cbn [andb].
    replace (existsb (row_allows P d) ps_seccomp_table) with true; [done|].
    symmetry. apply existsb_exists. exists (AllowArg s a v).
    split; [done|]. unfold row_allows. cbn [row_nr]. rewrite Hs.
    apply halves_eq_iff in Hx as [Hl Hh]. fold x.
    rewrite arg_lo_const, arg_hi_const, Hl, Hh, Hn, !Z.eqb_refl. done.
Qed.

(** SIOCGIFMTU on descriptor 3 is allowed by its rule; SIOCSIFMTU (0x8922)
    leaves the rule for the instruction after it. *)
Lemma allow_arg_match_or_fall_through_witness :
  ((1 < 6)%nat /\ u32 16 = u32 16 /\
   In (AllowArg "ioctl" 1 SIOCGIFMTU) ps_seccomp_table) /\
  seccomp_verdict x86_64 (call_x86_64 16 3 SIOCGIFMTU)
    = Ret SECCOMP_RET_ALLOW /\
  bpf_run 6 LITTLE_ENDIAN
    ([] ++ SECCOMP_ALLOW_ARG LITTLE_ENDIAN 16 1 SIOCGIFMTU ++ [filter_deny])
    (call_x86_64 16 3 SIOCGIFMTU) 0 (u32 16) = Ret SECCOMP_RET_ALLOW /\
  exists steps, (steps <= 6)%nat /\
    bpf_run steps LITTLE_ENDIAN
      ([] ++ SECCOMP_ALLOW_ARG LITTLE_ENDIAN 16 1 SIOCGIFMTU ++ [filter_deny])
      (call_x86_64 16 3 0x8922) 0 (u32 16) = Next 7 (u32 16).
Proof.
  assert (Hin : In (AllowArg "ioctl" 1 SIOCGIFMTU) ps_seccomp_table)
    by (unfold ps_seccomp_table; cbn [In]; tauto).
  split; [split_and!; [lia | reflexivity | exact Hin]|]. split_and!.
  - apply (allow_arg_match_or_fall_through LITTLE_ENDIAN
             (call_x86_64 16 3 SIOCGIFMTU) [] [filter_deny] 16 1 SIOCGIFMTU
             ltac:(lia) eq_refl) with (P := x86_64) (s := "ioctl");
      [exact Hin | reflexivity | reflexivity | reflexivity].
  - apply (allow_arg_match_or_fall_through LITTLE_ENDIAN
             (call_x86_64 16 3 SIOCGIFMTU) [] [filter_deny] 16 1 SIOCGIFMTU);
      [lia | reflexivity | reflexivity].
  - apply (allow_arg_match_or_fall_through LITTLE_ENDIAN
             (call_x86_64 16 3 0x8922) [] [filter_deny] 16 1 SIOCGIFMTU);
      [lia | reflexivity | vm_compute; discriminate].
Defined.

(** C9. Every way out of a constrained rule other than its allowing return
    leaves the syscall number in the accumulator at the instruction after
    the rule: a syscall-number mismatch jumps there with the accumulator
    untouched; a low-half or high-half mismatch goes, with the argument
    word still in the accumulator, to the rule's last instruction, which
    reloads the syscall number. Hence in the filter of any table, whenever
    control stands behind a prefix of the table none of whose rows allowed
    the call, the accumulator holds the syscall number. *)
Theorem allow_arg_restores_nr
    (bo : byte_order) (d : seccomp_data) (pre post : list sock_filter)
    (n : Z) (a : nat) (v : Z) :
  (a < 6)%nat ->
  let prog := pre ++ SECCOMP_ALLOW_ARG bo n a v ++ post in
  let x := nth a (args d) 0 in
  let A := u32 (nr d) in
  last (SECCOMP_ALLOW_ARG bo n a v)
    = Some (BPF_STMT (BPF_LD + BPF_W + BPF_ABS) offsetof_nr) /\
  (A <> u32 n ->
     bpf_run 1 bo prog d (length pre) A = Next (length pre + 7) A) /\
  (A = u32 n -> lo32 x <> lo32 v ->
     bpf_run 3 bo prog d (length pre) A = Next (length pre + 6) (lo32 x) /\
     bpf_run 4 bo prog d (length pre) A = Next (length pre + 7) A) /\
  (A = u32 n -> lo32 x = lo32 v -> hi32 x <> hi32 v ->
     bpf_run 5 bo prog d (length pre) A = Next (length pre + 6) (hi32 x) /\
     bpf_run 6 bo prog d (length pre) A = Next (length pre + 7) A) /\
  (forall (P : platform) (t1 t2 : list row),
     forallb row_ok t1 = true ->
     u32 (arch d) = u32 (SECCOMP_AUDIT_ARCH P) ->
     existsb (row_allows P d) t1 = false ->
     exists steps,
       bpf_run steps (BYTE_ORDER P) (filter_of P (t1 ++ t2)) d 0 0
       = Next (4 + length (flat_map (expand_row P) t1)) A).
Proof.
  intros Ha prog x A. split_and!.
  - reflexivity.
  - intros HA. by apply allow_arg_nr_miss.
  - intros HA Hl. split.
    + pose proof (allow_arg_lo_cmp bo d pre post n a v Ha) as H.
      rewrite <- HA in H. apply Z.eqb_neq in Hl.
      fold x in H. by rewrite Hl in H.
    + pose proof (allow_arg_lo_miss bo d pre post n a v Ha Hl) as H.
      by rewrite <- HA in H.
  - intros HA Hl Hh. split.
    + pose proof (allow_arg_hi_cmp bo d pre post n a v Ha Hl) as H.
      rewrite <- HA in H. apply Z.eqb_neq in Hh.
      fold x in H. by rewrite Hh in H.
    + pose proof (allow_arg_hi_miss bo d pre post n a v Ha Hl Hh) as H.
      by rewrite <- HA in H.
  - intros P t1 t2 Hok Harch Hno.
    destruct (rows_reach P d t1 Hok Hno (filter_head P)
                (flat_map (expand_row P) t2 ++ [filter_deny]))
      as (m & _ & Hrun).
    exists (3 + m)%nat. rewrite bpf_run_add. unfold filter_of.
    rewrite head_run. apply Z.eqb_eq in Harch. rewrite Harch.
    rewrite flat_map_app, <- app_assoc. exact Hrun.
Qed.

(** An ioctl with a foreign request code leaves the SIOCGIFMTU rule by its
    reload, the syscall number back in the accumulator. *)
Lemma allow_arg_restores_nr_witness :
  ((1 < 6)%nat /\ u32 (nr (call_x86_64 16 3 0x8922)) = u32 16 /\
   lo32 (nth 1 (args (call_x86_64 16 3 0x8922)) 0) <> lo32 SIOCGIFMTU) /\
  bpf_run 3 LITTLE_ENDIAN
    ([] ++ SECCOMP_ALLOW_ARG LITTLE_ENDIAN 16 1 SIOCGIFMTU ++ [filter_deny])
    (call_x86_64 16 3 0x8922) 0 16 = Next 6 0x8922 /\
  bpf_run 4 LITTLE_ENDIAN
    ([] ++ SECCOMP_ALLOW_ARG LITTLE_ENDIAN 16 1 SIOCGIFMTU ++ [filter_deny])
    (call_x86_64 16 3 0x8922) 0 16 = Next 7 16.
Proof.
  assert (H1 : (1 < 6)%nat) by lia.
  assert (H2 : u32 (nr (call_x86_64 16 3 0x8922)) = u32 16) by reflexivity.
  assert (H3 : lo32 (nth 1 (args (call_x86_64 16 3 0x8922)) 0)
               <> lo32 SIOCGIFMTU) by (vm_compute; discriminate).
  split; [by split_and!|].
  pose proof (allow_arg_restores_nr LITTLE_ENDIAN (call_x86_64 16 3 0x8922)
                [] [filter_deny] 16 1 SIOCGIFMTU H1) as H.
  cbv zeta in H. destruct H as (_ & _ & Hlo & _).
  exact (Hlo H2 H3).
Defined.

(** C6, as the code has it. The default verdict is SECCOMP_RET_KILL, the
    kill-thread return value 0: both the instruction the architecture check
    falls into and the last instruction of the program return it; every
    call is either allowed or gets that value, and gets it exactly when the
    architecture is foreign or no row of the table allows the call. The
    value never makes the call fail with an error and never lets it
    proceed: it kills the calling thread, which ends the process exactly
    when that thread is its only one, as in the single-threaded worker. *)
Theorem filter_default_is_kill (P : platform) :
  SECCOMP_FILTER_FAIL = SECCOMP_RET_KILL /\
  SECCOMP_FILTER_FAIL = SECCOMP_RET_KILL_THREAD /\
  ps_seccomp_filter P !! 2%nat
    = Some (BPF_STMT (BPF_RET + BPF_K) SECCOMP_RET_KILL) /\
  last (ps_seccomp_filter P)
    = Some (BPF_STMT (BPF_RET + BPF_K) SECCOMP_RET_KILL) /\
  (forall d,
     seccomp_verdict P d
     = Ret (if (u32 (arch d) =? u32 (SECCOMP_AUDIT_ARCH P))
               && existsb (row_allows P d) ps_seccomp_table
            then SECCOMP_RET_ALLOW else SECCOMP_RET_KILL)) /\
  seccomp_action_of SECCOMP_FILTER_FAIL = ActKillThread /\
  (forall threads,
     seccomp_fate threads (seccomp_action_of SECCOMP_FILTER_FAIL)
     = if (threads <=? 1)%nat then ProcessKilled else ThreadKilled) /\
  (forall threads e,
     seccomp_fate threads (seccomp_action_of SECCOMP_FILTER_FAIL)
     <> CallFails e) /\
  (forall threads,
     seccomp_fate threads (seccomp_action_of SECCOMP_FILTER_FAIL)
     <> CallProceeds).
Proof.
  split_and!; try reflexivity.
  - apply filter_of_last.
  - apply ps_seccomp_verdict.
  - intros threads e. change (seccomp_action_of SECCOMP_FILTER_FAIL)
      with ActKillThread. cbn [seccomp_fate].
    destruct (threads <=? 1)%nat; discriminate.
  - intros threads. change (seccomp_action_of SECCOMP_FILTER_FAIL)
      with ActKillThread. cbn [seccomp_fate].
    destruct (threads <=? 1)%nat; discriminate.
Qed.

(** C6 as worded fails: the value returned for a denied call, here socket
    on x86-64, is not the kill-process value, and in a process of two
    threads the denied call kills the calling thread only. *)
Lemma filter_default_not_kill_process :
  SECCOMP_FILTER_FAIL <> SECCOMP_RET_KILL_PROCESS /\
  last (ps_seccomp_filter x86_64)
    <> Some (BPF_STMT (BPF_RET + BPF_K) SECCOMP_RET_KILL_PROCESS) /\
  seccomp_verdict x86_64 (call_x86_64 41 0 0)
    <> Ret SECCOMP_RET_KILL_PROCESS /\
  seccomp_action_of SECCOMP_RET_KILL_PROCESS = ActKillProcess /\
  seccomp_action_of SECCOMP_FILTER_FAIL <> ActKillProcess /\
  seccomp_fate 2 (seccomp_action_of SECCOMP_FILTER_FAIL) = ThreadKilled /\
  seccomp_fate 2 (seccomp_action_of SECCOMP_FILTER_FAIL) <> ProcessKilled.
Proof.
  split_and!; try (vm_compute; reflexivity); vm_compute; discriminate.
Qed.

Lemma socket_not_listed_x86_64 :
  nr_listed x86_64 ps_seccomp_table 41 = false.
Proof. vm_compute. reflexivity. Qed.

(** C7. No row of the table names the socket syscall, and on x86-64, where
    socket is syscall 41, the filter kills every such call whatever its
    arguments. *)
Theorem table_excludes_socket :
  Forall (fun r => row_syscall r <> "socket") ps_seccomp_table /\
  NR x86_64 !! "socket" = Some 41 /\
  (forall ar ip ags,
     seccomp_verdict x86_64 (mk_data 41 ar ip ags) = Ret SECCOMP_RET_KILL).
Proof.
  split_and!.
  - unfold ps_seccomp_table. repeat (constructor; [discriminate|]).
    constructor.
  - vm_compute. reflexivity.
  - intros ar ip ags. rewrite ps_seccomp_verdict.
    destruct (existsb (row_allows x86_64 (mk_data 41 ar ip ags))
                ps_seccomp_table) eqn:E.
    + apply row_allows_listed in E.
      change (u32 (nr (mk_data 41 ar ip ags))) with 41 in E.
      rewrite socket_not_listed_x86_64 in E. discriminate E.
    + by rewrite andb_false_r.
Qed.

(** ** The relay *)

Lemma is_open_elem (w : proc) (s : nat) :
  s ∈ p_fds w -> is_open w (Z.of_nat s) = true.
Proof.
  intros Hs. unfold is_open. rewrite Nat2Z.id.
  apply andb_true_intro. split; [apply Z.leb_le; lia|].
  by apply bool_decide_eq_true.
Qed.

Lemma fresh_in_union (X : gset nat) : fresh X ∈ {[fresh X]} ∪ X.
Proof. apply elem_of_union_l, elem_of_singleton. done. Qed.

Lemma close_fresh (X : gset nat) : ({[fresh X]} ∪ X) ∖ {[fresh X]} = X.
Proof.
  pose proof (is_fresh X) as Hf. apply set_eq. intros y.
  rewrite elem_of_difference, elem_of_union, elem_of_singleton.
  split; [intros [[->|Hy] Hne]; done|].
  intros Hy. split; [by right|]. by intros ->.
Qed.

Lemma of_nat_not_m1 (n : nat) : (Z.of_nat n =? -1) = false.
Proof. apply Z.eqb_neq. lia. Qed.

Lemma opened_app l1 l2 : opened (l1 ++ l2) = (opened l1 + opened l2)%nat.
Proof. unfold opened. by rewrite List.filter_app, length_app. Qed.

Lemma closed_app l1 l2 : closed (l1 ++ l2) = (closed l1 + closed l2)%nat.
Proof. unfold closed. by rewrite List.filter_app, length_app. Qed.

Ltac fd_is_open :=
  match goal with
  | |- context [is_open ?w (Z.of_nat ?s)] =>
    rewrite (is_open_elem w s) by (cbn [p_fds]; apply fresh_in_union)
  end.

Ltac run_monad :=
  unfold mbind, M_bind, mret, M_ret, emit, set_errno, set_fds, get_errno;
  cbn beta iota zeta delta [p_errno p_fds p_no_new_privs p_filters p_rx p_log fst snd].

(** The handler on a route request, path by path. *)
Lemma dosendnetlink_paths K p msg w :
  let s := fresh (p_fds w) in
  let w1 := {| p_errno := p_errno w; p_fds := {[s]} ∪ p_fds w;
               p_no_new_privs := p_no_new_privs w;
               p_filters := p_filters w; p_rx := p_rx w;
               p_log := p_log w ++ [EvSocket p s] |} in
  let w2 (n : nat) :=
    {| p_errno := p_errno w; p_fds := {[s]} ∪ p_fds w;
       p_no_new_privs := p_no_new_privs w;
       p_filters := p_filters w; p_rx := p_rx w;
       p_log := (p_log w ++ [EvSocket p s])
                ++ [EvSendmsg (Z.of_nat s) msg (Z.of_nat n)] |} in
  let '(r, w') := ps_root_dosendnetlink K p msg w in
  p_fds w' = p_fds w /\
  p_no_new_privs w' = p_no_new_privs w /\ p_filters w' = p_filters w /\
  p_rx w' = p_rx w /\
  match k_linksocket K w p with
  | Some e =>
    r = -1 /\ p_errno w' = e /\ p_log w' = p_log w ++ [EvSocketFailed p e]
  | None =>
    match k_sendmsg K w1 s msg with
    | inr e =>
      r = -1 /\ p_errno w' = e /\
      p_log w' = p_log w ++ [EvSocket p s; EvSendmsg (Z.of_nat s) msg (-1);
                             EvClose (Z.of_nat s) 0]
    | inl n =>
      match k_getnetlink K (w2 n) s with
      | inr e =>
        r = -1 /\ p_errno w' = e /\
        p_log w' = p_log w ++ [EvSocket p s;
                               EvSendmsg (Z.of_nat s) msg (Z.of_nat n);
                               EvGetnetlink (Z.of_nat s) (-1);
                               EvClose (Z.of_nat s) 0]
      | inl m =>
        r = Z.of_nat m /\ p_errno w' = p_errno w /\
        p_log w' = p_log w ++ [EvSocket p s;
                               EvSendmsg (Z.of_nat s) msg (Z.of_nat n);
                               EvGetnetlink (Z.of_nat s) (Z.of_nat m);
                               EvClose (Z.of_nat s) 0]
      end
    end
  end.
Proof.
  intros s w1 w2. subst w1 w2 s.
  unfold ps_root_dosendnetlink, if_linksocket. run_monad.
  destruct (k_linksocket K w p) as [e|]; run_monad.
  - change (-1 =? -1) with true. cbv iota. run_monad. by split_and!.
  - rewrite of_nat_not_m1. unfold sendmsg. fd_is_open. rewrite Nat2Z.id.
    destruct (k_sendmsg K _ (fresh (p_fds w)) msg) as [n|e]; run_monad.
    + rewrite of_nat_not_m1. unfold if_getnetlink. fd_is_open.
      rewrite Nat2Z.id.
      destruct (k_getnetlink K _ (fresh (p_fds w))) as [m|e]; run_monad;
        unfold close; fd_is_open; run_monad;
        rewrite Nat2Z.id, close_fresh, <- !app_assoc; by split_and!.
    + change (-1 =? -1) with true. cbv iota. unfold close. fd_is_open.
      run_monad. rewrite Nat2Z.id, close_fresh, <- !app_assoc. by split_and!.
Qed.

Lemma ps_root_os_route K flags len msg w :
  ps_root_os K (mk_psm PS_ROUTE flags len) msg w
  = ps_root_dosendnetlink K (to_int flags) msg w.
Proof. reflexivity. Qed.

Lemma ps_root_os_other K psm msg w :
  ps_cmd psm <> PS_ROUTE ->
  ps_root_os K psm msg w
  = (-1, {| p_errno := ENOTSUP; p_fds := p_fds w;
            p_no_new_privs := p_no_new_privs w; p_filters := p_filters w;
            p_rx := p_rx w; p_log := p_log w |}).
Proof.
  intros H. unfold ps_root_os. apply Z.eqb_neq in H. by rewrite H.
Qed.

(** Whatever the request and whatever the kernel answers, the handler
    returns with the descriptors it started with, having closed as many
    sockets as it opened. *)
Lemma ps_root_os_balanced K psm msg w :
  let w' := snd (ps_root_os K psm msg w) in
  p_fds w' = p_fds w /\
  (opened (p_log w') + closed (p_log w)
   = opened (p_log w) + closed (p_log w'))%nat.
Proof.
  destruct (decide (ps_cmd psm = PS_ROUTE)) as [Hc|Hc].
  - unfold ps_root_os. apply Z.eqb_eq in Hc. rewrite Hc.
    pose proof (dosendnetlink_paths K (to_int (ps_flags psm)) msg w) as H.
    cbv zeta in H.
    destruct (ps_root_dosendnetlink K (to_int (ps_flags psm)) msg w)
      as [r w'].
    destruct H as (Hfds & _ & _ & _ & H). cbn [snd]. split; [done|].
    destruct (k_linksocket K w _) as [e|].
    { destruct H as (_ & _ & ->). rewrite opened_app, closed_app.
      cbn. lia. }
    destruct (k_sendmsg K _ _ msg) as [n|e].
    2:{ destruct H as (_ & _ & ->). rewrite opened_app, closed_app.
        cbn. lia. }
    destruct (k_getnetlink K _ _) as [m|e];
      destruct H as (_ & _ & ->); rewrite opened_app, closed_app; cbn; lia.
  - rewrite ps_root_os_other by done. cbn [snd p_fds p_log].
    split; [done|lia].
Qed.

Lemma ps_root_os_loop_balanced K reqs :
  forall w,
  let w' := snd (ps_root_os_loop K reqs w) in
  p_fds w' = p_fds w /\
  (opened (p_log w') + closed (p_log w)
   = opened (p_log w) + closed (p_log w'))%nat.
Proof.
  induction reqs as [|[psm msg] reqs IH]; intros w.
  - cbn. split; [done|lia].
  - cbn [ps_root_os_loop]. unfold mbind, M_bind, mret, M_ret.
    pose proof (ps_root_os_balanced K psm msg w) as H1. cbv zeta in H1.
    destruct (ps_root_os K psm msg w) as [r w1]. cbn [snd] in H1.
    pose proof (IH w1) as H2. cbv zeta in H2.
    destruct (ps_root_os_loop K reqs w1) as [rs w2]. cbn [snd] in *.
    destruct H1 as [F1 B1], H2 as [F2 B2]. split; [congruence|lia].
Qed.

(** C2. On a route request the handler calls if_linksocket once, with the
    flags cut to an int as protocol. When that fails nothing was opened and
    the handler returns -1. When it yields the socket [s], what the call
    adds to the log is the opening of [s], the send, the receive unless the
    send failed, and last the close of [s], on each of the three exit
    paths: send failure (-1 and the send's errno), receive failure (-1 and
    the receive's errno) and success (the byte count): one socket opened,
    one closed. The open descriptors are afterwards those before the call,
    and they still are after any sequence of requests, however many of
    them fail. *)
Theorem relay_route_closes_socket
    (K : kernel) (flags len : Z) (msg : msghdr) (w : proc) :
  let p := to_int flags in
  let s := fresh (p_fds w) in
  let fd := Z.of_nat s in
  let w1 := {| p_errno := p_errno w; p_fds := {[s]} ∪ p_fds w;
               p_no_new_privs := p_no_new_privs w;
               p_filters := p_filters w; p_rx := p_rx w;
               p_log := p_log w ++ [EvSocket p s] |} in
  let w2 (n : nat) :=
    {| p_errno := p_errno w; p_fds := {[s]} ∪ p_fds w;
       p_no_new_privs := p_no_new_privs w;
       p_filters := p_filters w; p_rx := p_rx w;
       p_log := (p_log w ++ [EvSocket p s])
                ++ [EvSendmsg fd msg (Z.of_nat n)] |} in
  let '(r, w') := ps_root_os K (mk_psm PS_ROUTE flags len) msg w in
  p_fds w' = p_fds w /\
  (s ∉ p_fds w) /\
  (match k_linksocket K w p with
   | Some e =>
     r = -1 /\ p_errno w' = e /\ p_log w' = p_log w ++ [EvSocketFailed p e]
   | None =>
     match k_sendmsg K w1 s msg with
     | inr e =>
       r = -1 /\ p_errno w' = e /\
       p_log w' = p_log w ++ [EvSocket p s; EvSendmsg fd msg (-1);
                              EvClose fd 0]
     | inl n =>
       match k_getnetlink K (w2 n) s with
       | inr e =>
         r = -1 /\ p_errno w' = e /\
         p_log w' = p_log w ++ [EvSocket p s; EvSendmsg fd msg (Z.of_nat n);
                                EvGetnetlink fd (-1); EvClose fd 0]
       | inl m =>
         r = Z.of_nat m /\ p_errno w' = p_errno w /\
         p_log w' = p_log w ++ [EvSocket p s; EvSendmsg fd msg (Z.of_nat n);
                                EvGetnetlink fd (Z.of_nat m); EvClose fd 0]
       end
     end
   end) /\
  (let k := match k_linksocket K w p with
            | Some _ => 0%nat
            | None => 1%nat
            end in
   opened (p_log w') = (opened (p_log w) + k)%nat /\
   closed (p_log w') = (closed (p_log w) + k)%nat) /\
  (forall reqs,
     let w'' := snd (ps_root_os_loop K reqs w) in
     p_fds w'' = p_fds w /\
     (opened (p_log w'') + closed (p_log w)
      = opened (p_log w) + closed (p_log w''))%nat).
Proof.
  intros p s fd w1 w2. subst p s fd w1 w2. rewrite ps_root_os_route.
  pose proof (dosendnetlink_paths K (to_int flags) msg w) as H.
  cbv zeta in H.
  destruct (ps_root_dosendnetlink K (to_int flags) msg w) as [r w'].
  destruct H as (Hfds & _ & _ & _ & H).
  split; [done|]. split; [apply is_fresh|]. split; [exact H|].
  split; [|intros reqs; apply ps_root_os_loop_balanced].
  cbv zeta.
  destruct (k_linksocket K w _) as [e|].
  { destruct H as (_ & _ & ->). rewrite opened_app, closed_app. by cbn. }
  destruct (k_sendmsg K _ _ msg) as [n|e].
  2:{ destruct H as (_ & _ & ->). rewrite opened_app, closed_app. by cbn. }
  destruct (k_getnetlink K _ _) as [m|e]; destruct H as (_ & _ & ->);
    rewrite opened_app, closed_app; by cbn.
Qed.

(** C3. A request whose command is not the route command fails with -1 and
    errno ENOTSUP, and nothing else happens: no descriptor is opened,
    nothing is logged as done to the kernel, the rest of the process is as
    it was. *)
Theorem relay_rejects_other_commands
    (K : kernel) (psm : ps_msghdr) (msg : msghdr) (w : proc) :
  ps_cmd psm <> PS_ROUTE ->
  let '(r, w') := ps_root_os K psm msg w in
  r = -1 /\ p_errno w' = ENOTSUP /\
  p_log w' = p_log w /\ p_fds w' = p_fds w /\
  opened (p_log w') = opened (p_log w) /\
  p_no_new_privs w' = p_no_new_privs w /\ p_filters w' = p_filters w /\
  p_rx w' = p_rx w.
Proof. intros H. rewrite ps_root_os_other by done. by split_and!. Qed.

(** An ioctl request (command 0x0010) sent to the Linux handler. *)
Lemma relay_rejects_other_commands_witness :
  ps_cmd (mk_psm 0x0010 0 2) <> PS_ROUTE /\
  fst (ps_root_os kernel_ok (mk_psm 0x0010 0 2) msg0 proc0) = -1 /\
  p_errno (snd (ps_root_os kernel_ok (mk_psm 0x0010 0 2) msg0 proc0))
    = ENOTSUP /\
  p_log (snd (ps_root_os kernel_ok (mk_psm 0x0010 0 2) msg0 proc0)) = [].
Proof.
  assert (H : ps_cmd (mk_psm 0x0010 0 2) <> PS_ROUTE) by discriminate.
  split; [exact H|].
  pose proof (relay_rejects_other_commands kernel_ok (mk_psm 0x0010 0 2)
                msg0 proc0 H) as T.
  destruct (ps_root_os kernel_ok (mk_psm 0x0010 0 2) msg0 proc0) as [r w'].
  destruct T as (Hr & He & Hl & _). by split_and!.
Defined.

Lemma to_int_low_bits x : u32 (to_int x) = u32 x.
Proof.
  unfold to_int, u32.
  rewrite Zminus_mod_idemp_l.
  by replace (x + 2 ^ 31 - 2 ^ 31) with x by lia.
Qed.

Lemma to_int_small x : - 2 ^ 31 <= x < 2 ^ 31 -> to_int x = x.
Proof. intros H. unfold to_int. rewrite Z.mod_small by lia. lia. Qed.

(** C10. The protocol the handler opens its socket for is the flags field
    cut to a signed 32-bit int: the value in the int range that has the
    low 32 bits of the flags (the flags themselves when they fit an int),
    and it is with that value that the handler asks for the socket, as the
    first thing it does. So two route requests whose flags agree on the
    low 32 bits are handled alike, same result and same effects, whatever
    their upper bits, and two whose low 32 bits differ ask for different
    protocols. *)
Theorem relay_truncates_flags
    (K : kernel) (f1 f2 len : Z) (msg : msghdr) (w : proc) :
  u32 f1 = u32 f2 ->
  - 2 ^ 31 <= to_int f1 < 2 ^ 31 /\
  u32 (to_int f1) = u32 f1 /\
  (forall p, - 2 ^ 31 <= p < 2 ^ 31 -> u32 p = u32 f1 -> p = to_int f1) /\
  (- 2 ^ 31 <= f1 < 2 ^ 31 -> to_int f1 = f1) /\
  (forall g, u32 g <> u32 f1 -> to_int g <> to_int f1) /\
  ps_root_os K (mk_psm PS_ROUTE f1 len) msg w
    = ps_root_dosendnetlink K (to_int f1) msg w /\
  (exists ev rest,
     p_log (snd (ps_root_os K (mk_psm PS_ROUTE f1 len) msg w))
     = p_log w ++ ev :: rest /\
     match k_linksocket K w (to_int f1) with
     | Some e => ev = EvSocketFailed (to_int f1) e
     | None => ev = EvSocket (to_int f1) (fresh (p_fds w))
     end) /\
  to_int f1 = to_int f2 /\
  ps_root_os K (mk_psm PS_ROUTE f1 len) msg w
    = ps_root_os K (mk_psm PS_ROUTE f2 len) msg w.
Proof.
  intros H. split_and!.
  - apply to_int_range.
  - apply to_int_range.
  - apply to_int_low_bits.
  - intros p Hp Hu. rewrite <- (to_int_small p Hp). by apply to_int_u32.
  - apply to_int_small.
  - intros g Hg Heq. apply Hg.
    by rewrite <- (to_int_low_bits g), <- (to_int_low_bits f1), Heq.
  - apply ps_root_os_route.
  - rewrite ps_root_os_route.
    pose proof (dosendnetlink_paths K (to_int f1) msg w) as P.
    cbv zeta in P.
    destruct (ps_root_dosendnetlink K (to_int f1) msg w) as [r w'].
    destruct P as (_ & _ & _ & _ & P). cbn [snd].
    destruct (k_linksocket K w _) as [e|].
    { destruct P as (_ & _ & ->). by eexists _, []. }
    destruct (k_sendmsg K _ _ msg) as [n|e].
    2:{ destruct P as (_ & _ & ->). by eexists _, _. }
    destruct (k_getnetlink K _ _) as [m|e];
      destruct P as (_ & _ & ->); by eexists _, _.
  - by apply to_int_u32.
  - rewrite !ps_root_os_route. by rewrite (to_int_u32 f1 f2).
Qed.

(** Flags 16 (NETLINK_GENERIC) and the same with bit 32 set: both open a
    socket for protocol 16. *)
Lemma relay_truncates_flags_witness :
  u32 16 = u32 (2 ^ 32 + 16) /\
  16 <> 2 ^ 32 + 16 /\
  to_int (2 ^ 32 + 16) = 16 /\
  ps_root_os kernel_ok (mk_psm PS_ROUTE 16 2) msg0 proc0
    = ps_root_os kernel_ok (mk_psm PS_ROUTE (2 ^ 32 + 16) 2) msg0 proc0 /\
  (exists ev rest,
     p_log (snd (ps_root_os kernel_ok (mk_psm PS_ROUTE (2 ^ 32 + 16) 2)
                   msg0 proc0))
     = p_log proc0 ++ ev :: rest /\
     ev = EvSocket 16 (fresh (p_fds proc0))).
Proof.
  assert (H : u32 16 = u32 (2 ^ 32 + 16)) by reflexivity.
  assert (H' : u32 (2 ^ 32 + 16) = u32 16) by reflexivity.
  split; [exact H|]. split; [discriminate|].
  pose proof (relay_truncates_flags kernel_ok 16 (2 ^ 32 + 16) 2 msg0 proc0 H)
    as T.
  pose proof (relay_truncates_flags kernel_ok (2 ^ 32 + 16) 16 2 msg0 proc0 H')
    as T'.
  destruct T as (_ & _ & _ & Hsmall & _ & _ & _ & Heq & Hos).
  destruct T' as (_ & _ & _ & _ & _ & _ & Hlog & _ & _).
  assert (E : to_int (2 ^ 32 + 16) = 16)
    by (rewrite <- Heq; apply Hsmall; lia).
  split; [exact E|]. split; [exact Hos|].
  rewrite E in Hlog. exact Hlog.
Defined.

(** ** The sandbox installer *)

Lemma prctl_fail K op w e :
  k_prctl K w op = Some e ->
  prctl K op w
  = (-1, {| p_errno := e; p_fds := p_fds w;
            p_no_new_privs := p_no_new_privs w; p_filters := p_filters w;
            p_rx := p_rx w; p_log := p_log w ++ [EvPrctl op (-1)] |}).
Proof. intros H. unfold prctl. by rewrite H. Qed.

Lemma prctl_nnp_ok K w :
  k_prctl K w (PR_SET_NO_NEW_PRIVS 1) = None ->
  prctl K (PR_SET_NO_NEW_PRIVS 1) w
  = (0, {| p_errno := p_errno w; p_fds := p_fds w; p_no_new_privs := true;
           p_filters := p_filters w; p_rx := p_rx w;
           p_log := p_log w ++ [EvPrctl (PR_SET_NO_NEW_PRIVS 1) 0] |}).
Proof. intros H. unfold prctl. by rewrite H. Qed.

Lemma prctl_filter_ok K prog w :
  k_prctl K w (PR_SET_SECCOMP_FILTER prog) = None ->
  prctl K (PR_SET_SECCOMP_FILTER prog) w
  = (0, {| p_errno := p_errno w; p_fds := p_fds w;
           p_no_new_privs := p_no_new_privs w;
           p_filters := prog :: p_filters w; p_rx := p_rx w;
           p_log := p_log w ++ [EvPrctl (PR_SET_SECCOMP_FILTER prog) 0] |}).
Proof. intros H. unfold prctl. by rewrite H. Qed.

(** C5. The installer first disables new privileges and only then, if that
    succeeded, installs the filter. A failure of either step makes it
    return -1, with errno ENOSYS when the kernel refused the step with
    EINVAL and the kernel's errno untouched otherwise, and with no filter
    installed; when both succeed it returns 0, errno is as before and the
    program built from the table is the installed filter. *)
Theorem seccomp_enter_outcomes (K : kernel) (P : platform) (w : proc) :
  let nnp := PR_SET_NO_NEW_PRIVS 1 in
  let flt := PR_SET_SECCOMP_FILTER (ps_seccomp_prog P) in
  let w1 := {| p_errno := p_errno w; p_fds := p_fds w;
               p_no_new_privs := true; p_filters := p_filters w;
               p_rx := p_rx w; p_log := p_log w ++ [EvPrctl nnp 0] |} in
  let '(r, w') := ps_seccomp_enter K P w in
  p_fds w' = p_fds w /\
  match k_prctl K w nnp with
  | Some e =>
    r = -1 /\ p_errno w' = (if e =? EINVAL then ENOSYS else e) /\
    p_log w' = p_log w ++ [EvPrctl nnp (-1)] /\
    p_filters w' = p_filters w /\ p_no_new_privs w' = p_no_new_privs w
  | None =>
    match k_prctl K w1 flt with
    | Some e =>
      r = -1 /\ p_errno w' = (if e =? EINVAL then ENOSYS else e) /\
      p_log w' = p_log w ++ [EvPrctl nnp 0; EvPrctl flt (-1)] /\
      p_filters w' = p_filters w /\ p_no_new_privs w' = true
    | None =>
      r = 0 /\ p_errno w' = p_errno w /\
      p_log w' = p_log w ++ [EvPrctl nnp 0; EvPrctl flt 0] /\
      p_filters w' = ps_seccomp_prog P :: p_filters w /\
      p_no_new_privs w' = true
    end
  end.
Proof.
  intros nnp flt w1. subst w1 nnp flt.
  unfold ps_seccomp_enter. unfold mbind, M_bind.
  destruct (k_prctl K w (PR_SET_NO_NEW_PRIVS 1)) as [e|] eqn:E1.
  - rewrite (prctl_fail _ _ _ _ E1). change (-1 =? -1) with true.
    cbv beta iota. unfold mret, M_ret, get_errno. cbn [p_errno].
    destruct (e =? EINVAL); by split_and!.
  - rewrite (prctl_nnp_ok _ _ E1). change (0 =? -1) with false.
    cbv beta iota.
    destruct (k_prctl K _ (PR_SET_SECCOMP_FILTER _)) as [e|] eqn:E2.
    + rewrite (prctl_fail _ _ _ _ E2). unfold mret, M_ret, get_errno.
      change (-1 =? -1) with true. cbv beta iota. cbn [p_errno].
      destruct (e =? EINVAL); cbn [set_errno p_log p_fds p_errno p_filters
        p_no_new_privs]; rewrite <- app_assoc; by split_and!.
    + rewrite (prctl_filter_ok _ _ _ E2). unfold mret, M_ret.
      change (0 =? -1) with false. cbv beta iota.
      cbn [p_log p_fds p_errno p_filters p_no_new_privs].
      rewrite <- app_assoc. by split_and!.
Qed.

(** ** The request of the unprivileged side *)

(** C8. The request puts one frame on the channel: command route, the
    protocol as 64-bit flags (from which the relay's cut to int recovers
    it), the message as payload. When that send fails the call returns -1
    with the send's errno and reads nothing. Otherwise it reads the next
    response, waiting as long as there is none: a success yields its byte
    count and leaves errno alone, a failure yields -1 with the relay's
    error code as errno. *)
Theorem worker_request_route
    (K : kernel) (protocol : Z) (msg : msghdr) (w : proc) :
  let psm := {| ps_cmd := PS_ROUTE; ps_flags := to_ulong protocol;
                ps_datalen := Z.of_nat (length (msg_iov msg)) |} in
  let sent (e r : Z) :=
    {| p_errno := e; p_fds := p_fds w;
       p_no_new_privs := p_no_new_privs w; p_filters := p_filters w;
       p_rx := p_rx w; p_log := p_log w ++ [EvPsSend psm msg r] |} in
  let answered (e n : Z) (resp : response) (rest : list response) :=
    {| p_errno := e; p_fds := p_fds w;
       p_no_new_privs := p_no_new_privs w; p_filters := p_filters w;
       p_rx := rest;
       p_log := p_log w ++ [EvPsSend psm msg n; EvPsRead resp] |} in
  (- 2 ^ 31 <= protocol < 2 ^ 31 -> to_int (ps_flags psm) = protocol) /\
  ps_root_sendnetlink K protocol msg w
  = match k_ps_sendmsg K w psm msg with
    | inr e => Some (-1, sent e (-1))
    | inl n =>
      match p_rx w with
      | [] => None
      | RespOk c data :: rest =>
        Some (Z.of_nat c,
              answered (p_errno w) (Z.of_nat n) (RespOk c data) rest)
      | RespFail e :: rest =>
        Some (-1, answered e (Z.of_nat n) (RespFail e) rest)
      end
    end.
Proof.
  intros psm sent answered. subst psm sent answered. split.
  - apply to_int_to_ulong.
  - unfold ps_root_sendnetlink, ps_sendmsg.
    change (u16 PS_ROUTE) with PS_ROUTE.
    destruct (k_ps_sendmsg K w _ msg) as [n|e].
    + unfold mbind, M_bind, mret, M_ret, emit.
      rewrite of_nat_not_m1. unfold ps_root_readerror. cbn [p_rx].
      destruct (p_rx w) as [|[c data|e] rest]; [done| |];
        cbn [p_errno p_fds p_no_new_privs p_filters p_log];
        by rewrite <- app_assoc.
    + unfold mbind, M_bind, mret, M_ret, emit, set_errno.
      change (-1 =? -1) with true. reflexivity.
Qed.

(** NETLINK_ROUTE (0) asked of a relay that answers with 20 bytes. *)
Lemma worker_request_route_witness :
  - 2 ^ 31 <= -1 < 2 ^ 31 /\
  to_int (to_ulong (-1)) = -1 /\
  fst <$> ps_root_sendnetlink kernel_ok 0 msg0
            {| p_errno := 0; p_fds := ∅; p_no_new_privs := false;
               p_filters := []; p_rx := [RespOk 20 []]; p_log := [] |}
  = Some 20.
Proof.
  assert (H : - 2 ^ 31 <= -1 < 2 ^ 31) by lia.
  split; [exact H|]. split.
  - exact (proj1 (worker_request_route kernel_ok (-1) msg0 proc0) H).
  - rewrite (proj2 (worker_request_route kernel_ok 0 msg0 _)). reflexivity.
Defined.

(** ** The filter on x86-64, run *)

(** An ioctl with a request code outside the table is tried by each of the
    five constrained rules and by every rule after them before the deny
    kills it. *)
Example ioctl_foreign_code_x86_64 :
  seccomp_trace LITTLE_ENDIAN (ps_seccomp_filter x86_64)
    (call_x86_64 16 3 0x8914)
  = [0; 1; 3; 4; 6; 8; 10; 12; 14; 16; 18; 20; 22; 23; 24; 28; 29; 30; 31;
     35; 36; 37; 38; 42; 43; 44; 45; 49; 50; 51; 52; 56; 57; 59; 61; 63; 65;
     67; 69; 71; 73; 75; 77; 79; 81; 83; 85; 87]%nat /\
  seccomp_verdict x86_64 (call_x86_64 16 3 0x8914) = Ret SECCOMP_RET_KILL.
Proof. split; vm_compute; reflexivity. Qed.

Example ioctl_listed_codes_x86_64 :
  map (fun c => seccomp_verdict x86_64 (call_x86_64 16 3 c))
    [SIOCGIFFLAGS; SIOCGIFHWADDR; SIOCGIFINDEX; SIOCGIFMTU; SIOCGIFVLAN;
     2 ^ 32 + SIOCGIFMTU]
  = [Ret SECCOMP_RET_ALLOW; Ret SECCOMP_RET_ALLOW; Ret SECCOMP_RET_ALLOW;
     Ret SECCOMP_RET_ALLOW; Ret SECCOMP_RET_ALLOW; Ret SECCOMP_RET_KILL].
Proof. vm_compute. reflexivity. Qed.

(** Three route requests against a kernel whose sendmsg fails: each
    opens descriptor 3 again and closes it. *)
Example failing_sends_reuse_descriptor :
  let reqs := replicate 3 (mk_psm PS_ROUTE 0 2, msg0) in
  let '(rs, w') := ps_root_os_loop (kernel_send_fails 5) reqs proc0 in
  rs = [-1; -1; -1] /\
  p_log w'
  = [EvSocket 0 3; EvSendmsg 3 msg0 (-1); EvClose 3 0;
     EvSocket 0 3; EvSendmsg 3 msg0 (-1); EvClose 3 0;
     EvSocket 0 3; EvSendmsg 3 msg0 (-1); EvClose 3 0] /\
  p_errno w' = 5.
Proof. vm_compute. auto. Qed.

(** ** More on the filter program *)

Lemma expand_row_size P r :
  (length (expand_row P r) <= row_size r)%nat.
Proof.
  unfold expand_row. destruct (row_nr P r); [|cbn [length]; lia].
  destruct r; cbn [length SECCOMP_ALLOW SECCOMP_ALLOW_ARG row_size]; lia.
Qed.

Lemma flat_map_expand_size P t :
  (length (flat_map (expand_row P) t) <= table_size t)%nat.
Proof.
  induction t as [|r t IH]; [done|].
  cbn [flat_map]. rewrite length_app. unfold table_size in *.
  pose proof (expand_row_size P r). simpl. lia.
Qed.

Lemma ps_seccomp_filter_length P :
  (5 <= length (ps_seccomp_filter P) <= 94)%nat.
Proof.
  unfold ps_seccomp_filter. rewrite filter_of_length.
  pose proof (flat_map_expand_size P ps_seccomp_table) as H.
  change (table_size ps_seccomp_table) with 89%nat in H. lia.
Qed.

(** A check passed in a short program at [pc] is passed in a longer one at
    [pc + s], as long as the program grew by at least [s]. *)
Lemma insn_ok_shift n pc i n' s :
  insn_ok n pc i = true -> (n + s <= n')%nat ->
  insn_ok n' (pc + s) i = true.
Proof.
  unfold insn_ok. intros H Hn.
  destruct (code i =? BPF_LD + BPF_W + BPF_ABS); [done|].
  destruct (code i =? BPF_JMP + BPF_JEQ + BPF_K); [|done].
  apply andb_prop in H as [H1 H2].
  apply Nat.ltb_lt in H1. apply Nat.ltb_lt in H2.
  apply andb_true_intro. split; apply Nat.ltb_lt; lia.
Qed.

(** Every instruction of a row passes the checks as soon as one more
    instruction follows the row. *)
Lemma expand_row_ok P r j i :
  row_ok r = true ->
  expand_row P r !! j = Some i ->
  insn_ok (S (length (expand_row P r))) j i = true.
Proof.
  intros Hok. unfold expand_row. destruct (row_nr P r) as [n|]; [|done].
  destruct r as [s|s|s a v].
  - do 2 (destruct j as [|j]; [intros [= <-]; reflexivity|]). done.
  - do 2 (destruct j as [|j]; [intros [= <-]; reflexivity|]). done.
  - cbn [row_ok] in Hok. apply Nat.ltb_lt in Hok.
    do 6 (destruct a as [|a];
          [do 7 (destruct j as [|j];
                 [intros [= <-]; by destruct (BYTE_ORDER P)|]); done|]).
    lia.
Qed.

Lemma rows_ok P t j i :
  forallb row_ok t = true ->
  flat_map (expand_row P) t !! j = Some i ->
  insn_ok (S (length (flat_map (expand_row P) t))) j i = true.
Proof.
  revert j. induction t as [|r t IH]; intros j Hok Hj; [done|].
  cbn [forallb] in Hok. apply andb_prop in Hok as [Hr Ht].
  cbn [flat_map] in *. rewrite length_app.
  apply lookup_app_Some in Hj as [Hj|[Hle Hj]].
  - rewrite <- (Nat.add_0_r j).
    eapply insn_ok_shift; [by apply expand_row_ok|lia].
  - replace j with (j - length (expand_row P r) + length (expand_row P r))%nat
      by lia.
    eapply insn_ok_shift; [by apply IH|lia].
Qed.

(** X1. On every platform the filter passes the checks the kernel makes
    before installing it: it has between 1 and BPF_MAXINSNS instructions,
    each is one of the three opcodes in use, each load reads an aligned
    word inside seccomp_data, both targets of each jump lie inside the
    program, and the last instruction is a return. *)
Theorem filter_passes_kernel_checks (P : platform) :
  let prog := ps_seccomp_filter P in
  1 <= Z.of_nat (length prog) <= BPF_MAXINSNS /\
  (exists i, last prog = Some i /\ code i = BPF_RET + BPF_K) /\
  (forall pc i, prog !! pc = Some i -> insn_ok (length prog) pc i = true).
Proof.
  intros prog. split_and!.
  - pose proof (ps_seccomp_filter_length P). subst prog. lia.
  - pose proof (ps_seccomp_filter_length P). subst prog.
    unfold BPF_MAXINSNS. lia.
  - exists filter_deny. split; [apply filter_of_last|reflexivity].
  - intros pc i Hpc. subst prog. unfold ps_seccomp_filter in *.
    rewrite filter_of_length. unfold filter_of in Hpc.
    pose proof (rows_ok P ps_seccomp_table) as Hrows.
    set (rules := flat_map (expand_row P) ps_seccomp_table) in *.
    clearbody rules.
    apply lookup_app_Some in Hpc as [Hpc|[Hle Hpc]].
    + rewrite <- (Nat.add_0_r pc).
      apply insn_ok_shift with (n := 5%nat); [|lia].
      do 4 (destruct pc as [|pc]; [injection Hpc as <-; reflexivity|]).
      done.
    + cbn [length filter_head] in Hle, Hpc.
      replace pc with (pc - 4 + 4)%nat by lia.
      apply lookup_app_Some in Hpc as [Hpc|[Hle' Hpc]].
      * eapply insn_ok_shift;
          [by apply Hrows; [apply ps_seccomp_table_ok|]|lia].
      * apply list_lookup_singleton_Some in Hpc as [_ <-]. reflexivity.
Qed.

(** The first constrained rule on x86-64 stands at instruction 22. *)
Lemma filter_passes_kernel_checks_witness :
  ps_seccomp_filter x86_64 !! 22%nat
    = Some (BPF_JUMP (BPF_JMP + BPF_JEQ + BPF_K) 16 0 6) /\
  insn_ok (length (ps_seccomp_filter x86_64)) 22
    (BPF_JUMP (BPF_JMP + BPF_JEQ + BPF_K) 16 0 6) = true.
Proof.
  assert (H : ps_seccomp_filter x86_64 !! 22%nat
              = Some (BPF_JUMP (BPF_JMP + BPF_JEQ + BPF_K) 16 0 6))
    by (vm_compute; reflexivity).
  split; [exact H|].
  exact (proj2 (proj2 (filter_passes_kernel_checks x86_64)) _ _ H).
Defined.

(** X2. The length stored in the program handed to the kernel is the
    number of instructions of the filter: the cast to unsigned short loses
    nothing, the filter having between 5 and 94 instructions whatever the
    platform defines. *)
Theorem prog_len_is_instruction_count (P : platform) :
  fprog_len (ps_seccomp_prog P)
    = Z.of_nat (length (fprog_filter (ps_seccomp_prog P))) /\
  5 <= fprog_len (ps_seccomp_prog P) <= 94 /\
  fprog_filter (ps_seccomp_prog P) = ps_seccomp_filter P.
Proof.
  pose proof (ps_seccomp_filter_length P) as H.
  assert (E : fprog_len (ps_seccomp_prog P)
              = Z.of_nat (length (ps_seccomp_filter P))).
  { unfold ps_seccomp_prog, u16. cbn [fprog_len].
    apply Z.mod_small. lia. }
  split_and!; [exact E | rewrite E; lia | rewrite E; lia | reflexivity].
Qed.

(** ** What the filter lets through *)

Lemma row_allows_admits P d r :
  row_allows P d r = true <-> row_admits P d r.
Proof.
  unfold row_allows, row_admits. destruct (row_nr P r) as [n|].
  2:{ split; [done|]. by intros (n & Hn & _). }
  split.
  - intros H. apply andb_prop in H as [Hn H]. apply Z.eqb_eq in Hn.
    exists n. split_and!; [done..|].
    destruct r as [s|s|s a v]; [done..|].
    apply andb_prop in H as [Hl Hh].
    apply Z.eqb_eq in Hl. apply Z.eqb_eq in Hh.
    rewrite arg_lo_const in Hl. rewrite arg_hi_const in Hh.
    by apply halves_eq_iff.
  - intros (m & [= <-] & Hn & H). apply andb_true_intro.
    split; [by apply Z.eqb_eq|].
    destruct r as [s|s|s a v]; [done..|].
    apply halves_eq_iff in H as [Hl Hh].
    rewrite arg_lo_const, arg_hi_const, Hl, Hh, !Z.eqb_refl. done.
Qed.

Lemma verdict_allow_iff P t d :
  forallb row_ok t = true ->
  seccomp_run_filter (BYTE_ORDER P) (filter_of P t) d = Ret SECCOMP_RET_ALLOW
  <-> u32 (arch d) = u32 (SECCOMP_AUDIT_ARCH P)
      /\ existsb (row_allows P d) t = true.
Proof.
  intros Hok. rewrite filter_of_verdict by done.
  destruct (Z.eqb_spec (u32 (arch d)) (u32 (SECCOMP_AUDIT_ARCH P)));
    cbn [andb].
  - destruct (existsb (row_allows P d) t); split; try done.
    + intros [_ ?]. done.
  - split; [done|]. by intros [? _].
Qed.

(** X3. The filter is exact: a call is allowed if and only if its
    architecture is the target's and some row of the table whose syscall
    the platform defines has the call's number and, when the row is
    constrained, the call's argument equal to the required value as a
    64-bit quantity; every other call is killed. *)
Theorem filter_allows_iff (P : platform) (d : seccomp_data) :
  (seccomp_verdict P d = Ret SECCOMP_RET_ALLOW
   <-> u32 (arch d) = u32 (SECCOMP_AUDIT_ARCH P)
       /\ exists r, In r ps_seccomp_table /\ row_admits P d r) /\
  (seccomp_verdict P d <> Ret SECCOMP_RET_ALLOW
   -> seccomp_verdict P d = Ret SECCOMP_RET_KILL).
Proof.
  split.
  - unfold seccomp_verdict, ps_seccomp_filter.
    rewrite verdict_allow_iff by apply ps_seccomp_table_ok.
    rewrite existsb_exists. split.
    + intros [Ha (r & Hin & Hr)]. split; [done|]. exists r.
      split; [done|]. by apply row_allows_admits.
    + intros [Ha (r & Hin & Hr)]. split; [done|]. exists r.
      split; [done|]. by apply row_allows_admits.
  - rewrite ps_seccomp_verdict.
    destruct ((u32 (arch d) =? u32 (SECCOMP_AUDIT_ARCH P))
              && existsb (row_allows P d) ps_seccomp_table); done.
Qed.

(** getpid on x86-64. *)
Lemma filter_allows_iff_witness :
  (u32 (arch (call_x86_64 39 0 0)) = u32 (SECCOMP_AUDIT_ARCH x86_64)
   /\ exists r, In r ps_seccomp_table /\ row_admits x86_64 (call_x86_64 39 0 0) r)
  /\ seccomp_verdict x86_64 (call_x86_64 39 0 0) = Ret SECCOMP_RET_ALLOW.
Proof.
  assert (H : u32 (arch (call_x86_64 39 0 0)) = u32 (SECCOMP_AUDIT_ARCH x86_64)
              /\ exists r, In r ps_seccomp_table
                           /\ row_admits x86_64 (call_x86_64 39 0 0) r).
  { split; [reflexivity|]. exists (Allow "getpid").
    split; [unfold ps_seccomp_table; cbn [In]; tauto|].
    exists 39. by split_and!. }
  split; [exact H|].
  exact (proj2 (proj1 (filter_allows_iff x86_64 (call_x86_64 39 0 0))) H).
Defined.

(** X4. The verdict does not depend on the byte order of the target: the
    offsets SECCOMP_ARG_LO and SECCOMP_ARG_HI follow the layout of the
    argument, so the filter built for either order decides every call as
    the other does on its own layout. *)
Theorem verdict_byte_order_independent
    (P : platform) (bo : byte_order) (d : seccomp_data) :
  seccomp_verdict (with_byte_order bo P) d = seccomp_verdict P d.
Proof. rewrite !ps_seccomp_verdict. reflexivity. Qed.

Lemma existsb_ext_in {X} (f g : X -> bool) (l : list X) :
  (forall x, In x l -> f x = g x) -> existsb f l = existsb g l.
Proof.
  induction l as [|x l IH]; intros H; [done|]. cbn [existsb].
  rewrite (H x) by (by left). rewrite IH; [done|].
  intros y Hy. apply H. by right.
Qed.

Lemma row_allows_frame P d d' r :
  row_reads_arg1 r = true ->
  u32 (nr d) = u32 (nr d') ->
  u64 (nth 1 (args d) 0) = u64 (nth 1 (args d') 0) ->
  row_allows P d r = row_allows P d' r.
Proof.
  intros Hr Hn Ha. unfold row_allows. destruct (row_nr P r); [|done].
  rewrite Hn. destruct r as [s|s|s a v]; [done..|].
  cbn [row_reads_arg1] in Hr. apply Nat.eqb_eq in Hr. subst a.
  apply halves_eq_iff in Ha as [-> ->]. done.
Qed.

(** X5. The verdict depends on three things only: the architecture tag,
    the syscall number and the 64-bit value of [args[1]]. The instruction
    pointer and the other five arguments are never looked at. *)
Theorem verdict_reads_arch_nr_arg1 (P : platform) (d d' : seccomp_data) :
  u32 (arch d) = u32 (arch d') ->
  u32 (nr d) = u32 (nr d') ->
  u64 (nth 1 (args d) 0) = u64 (nth 1 (args d') 0) ->
  seccomp_verdict P d = seccomp_verdict P d'.
Proof.
  intros Harch Hn Ha. rewrite !ps_seccomp_verdict, Harch.
  rewrite (existsb_ext_in (row_allows P d) (row_allows P d')); [done|].
  intros r Hr. apply row_allows_frame; [|done..].
  assert (Hall : forallb row_reads_arg1 ps_seccomp_table = true)
    by reflexivity.
  rewrite forallb_forall in Hall. by apply Hall.
Qed.

(** Two writes that differ in descriptor, buffer, length and caller. *)
Lemma verdict_reads_arch_nr_arg1_witness :
  (u32 (arch (call_x86_64 1 5 7)) = u32 (arch (mk_data 1 AUDIT_ARCH_X86_64 99 [6; 7; 8; 9]))
   /\ u32 (nr (call_x86_64 1 5 7)) = u32 (nr (mk_data 1 AUDIT_ARCH_X86_64 99 [6; 7; 8; 9]))
   /\ u64 (nth 1 (args (call_x86_64 1 5 7)) 0)
      = u64 (nth 1 (args (mk_data 1 AUDIT_ARCH_X86_64 99 [6; 7; 8; 9])) 0))
  /\ seccomp_verdict x86_64 (call_x86_64 1 5 7)
     = seccomp_verdict x86_64 (mk_data 1 AUDIT_ARCH_X86_64 99 [6; 7; 8; 9]).
Proof.
  split; [by split_and!|].
  apply verdict_reads_arch_nr_arg1; reflexivity.
Defined.

Lemma existsb_incl {X} (f : X -> bool) (l l' : list X) :
  (forall x, In x l -> In x l') -> existsb f l = true -> existsb f l' = true.
Proof.
  intros H. rewrite !existsb_exists. intros (x & Hx & Hf). eauto.
Qed.

(** X6. What a filter built from a table decides depends on the set of
    its rows only, neither on their order nor on repetitions: a table
    holding all rows of another allows every call the other allows, and
    two tables with the same rows give every call the same verdict. The
    fall-through of a rule that does not match is what makes it so. *)
Theorem verdict_depends_on_row_set
    (P : platform) (t t' : list row) (d : seccomp_data) :
  forallb row_ok t = true -> forallb row_ok t' = true ->
  (forall r, In r t -> In r t') ->
  let run t := seccomp_run_filter (BYTE_ORDER P) (filter_of P t) d in
  (run t = Ret SECCOMP_RET_ALLOW -> run t' = Ret SECCOMP_RET_ALLOW) /\
  ((forall r, In r t' -> In r t) -> run t = run t').
Proof.
  intros Hok Hok' Hincl run. subst run. cbv beta. split.
  - rewrite !verdict_allow_iff by done. intros [Ha He].
    split; [done|]. by apply (existsb_incl _ t t').
  - intros Hincl'. rewrite !filter_of_verdict by done.
    destruct (existsb (row_allows P d) t) eqn:E.
    + by rewrite (existsb_incl _ t t' Hincl E).
    + destruct (existsb (row_allows P d) t') eqn:E'; [|done].
      by rewrite (existsb_incl _ t' t Hincl' E') in E.
Qed.

(** The rows for read and write, in either order. *)
Lemma verdict_depends_on_row_set_witness :
  (forallb row_ok [Allow "read"; Allow "write"] = true
   /\ forallb row_ok [Allow "write"; Allow "read"; Allow "write"] = true
   /\ (forall r, In r [Allow "read"; Allow "write"]
                 -> In r [Allow "write"; Allow "read"; Allow "write"]))
  /\ seccomp_run_filter LITTLE_ENDIAN
       (filter_of x86_64 [Allow "read"; Allow "write"]) (call_x86_64 1 0 0)
     = seccomp_run_filter LITTLE_ENDIAN
         (filter_of x86_64 [Allow "write"; Allow "read"; Allow "write"])
         (call_x86_64 1 0 0).
Proof.
  assert (H1 : forall r, In r [Allow "read"; Allow "write"]
                 -> In r [Allow "write"; Allow "read"; Allow "write"])
    by (intros r; cbn [In]; tauto).
  assert (H2 : forall r, In r [Allow "write"; Allow "read"; Allow "write"]
                 -> In r [Allow "read"; Allow "write"])
    by (intros r; cbn [In]; tauto).
  split; [by split_and!|].
  exact (proj2 (verdict_depends_on_row_set x86_64
                  [Allow "read"; Allow "write"]
                  [Allow "write"; Allow "read"; Allow "write"]
                  (call_x86_64 1 0 0) eq_refl eq_refl H1) H2).
Defined.

Lemma ioctl_rows r :
  In r ps_seccomp_table -> row_syscall r = "ioctl" ->
  exists c, r = AllowArg "ioctl" 1 c /\ In c ioctl_codes.
Proof.
  unfold ps_seccomp_table, ioctl_codes. cbn [In]. intros H Hs.
  repeat (destruct H as [<-|H]; [first [discriminate Hs | eexists; split; [reflexivity|tauto]]|]).
  done.
Qed.

Lemma ioctl_codes_rows c :
  In c ioctl_codes -> In (AllowArg "ioctl" 1 c) ps_seccomp_table /\ u64 c = c.
Proof.
  unfold ioctl_codes. cbn [In]. intros H.
  repeat (destruct H as [<-|H];
          [split; [unfold ps_seccomp_table; cbn [In]; tauto|reflexivity]|]).
  done.
Qed.

(** X7. On a platform where no other row of the table has the number of
    the device-control syscall, such a call is allowed if and only if its
    request code, all 64 bits of it, is one of SIOCGIFFLAGS, SIOCGIFHWADDR,
    SIOCGIFINDEX, SIOCGIFMTU and SIOCGIFVLAN; in particular a code with
    any of the upper 32 bits set is killed. *)
Theorem ioctl_allowed_iff (P : platform) (d : seccomp_data) (n : Z) :
  NR P !! "ioctl" = Some n ->
  nr_listed P (other_rows "ioctl" ps_seccomp_table) (u32 n) = false ->
  u32 (arch d) = u32 (SECCOMP_AUDIT_ARCH P) ->
  u32 (nr d) = u32 n ->
  (seccomp_verdict P d = Ret SECCOMP_RET_ALLOW
   <-> In (u64 (nth 1 (args d) 0)) ioctl_codes) /\
  (2 ^ 32 <= u64 (nth 1 (args d) 0) ->
   seccomp_verdict P d = Ret SECCOMP_RET_KILL).
Proof.
  intros Hnr Hother Harch Hn.
  assert (Hiff : seccomp_verdict P d = Ret SECCOMP_RET_ALLOW
                 <-> In (u64 (nth 1 (args d) 0)) ioctl_codes).
  { unfold seccomp_verdict, ps_seccomp_filter.
    rewrite verdict_allow_iff by apply ps_seccomp_table_ok.
    rewrite existsb_exists. split.
    - intros [_ (r & Hin & Hr)]. apply row_allows_admits in Hr.
      destruct Hr as (m & Hm & Hnm & Hc).
      destruct (decide (row_syscall r = "ioctl")) as [Hs|Hs].
      + destruct (ioctl_rows r Hin Hs) as (c & -> & Hcin).
        rewrite Hc. by rewrite (proj2 (ioctl_codes_rows c Hcin)).
      + exfalso. assert (nr_listed P (other_rows "ioctl" ps_seccomp_table)
                           (u32 n) = true) as Hl; [|congruence].
        unfold nr_listed. apply existsb_exists. exists r. split.
        * unfold other_rows. apply filter_In. split; [done|].
          by apply bool_decide_eq_true.
        * rewrite Hm. apply Z.eqb_eq. congruence.
    - intros Hc. split; [done|].
      destruct (ioctl_codes_rows _ Hc) as [Hin Hu].
      eexists. split; [exact Hin|]. apply row_allows_admits.
      exists n. split_and!; [done..|]. by rewrite Hu. }
  split; [exact Hiff|].
  intros Hbig. pose proof (ps_seccomp_verdict P d) as Hv.
  destruct ((u32 (arch d) =? u32 (SECCOMP_AUDIT_ARCH P))
            && existsb (row_allows P d) ps_seccomp_table); [|exact Hv].
  exfalso. assert (Hc : In (u64 (nth 1 (args d) 0)) ioctl_codes)
    by (by apply Hiff).
  revert Hbig. generalize (u64 (nth 1 (args d) 0)) Hc.
  unfold ioctl_codes. cbn [In]. intros c H.
  repeat (destruct H as [<-|H]; [vm_compute; by intros []|]). done.
Qed.

(** SIOCGIFINDEX on x86-64, where ioctl is syscall 16. *)
Lemma ioctl_allowed_iff_witness :
  (NR x86_64 !! "ioctl" = Some 16
   /\ nr_listed x86_64 (other_rows "ioctl" ps_seccomp_table) (u32 16) = false
   /\ u32 (arch (call_x86_64 16 3 SIOCGIFINDEX))
      = u32 (SECCOMP_AUDIT_ARCH x86_64)
   /\ u32 (nr (call_x86_64 16 3 SIOCGIFINDEX)) = u32 16)
  /\ (seccomp_verdict x86_64 (call_x86_64 16 3 SIOCGIFINDEX)
      = Ret SECCOMP_RET_ALLOW
      <-> In (u64 (nth 1 (args (call_x86_64 16 3 SIOCGIFINDEX)) 0))
            ioctl_codes).
Proof.
  assert (H1 : NR x86_64 !! "ioctl" = Some 16) by (vm_compute; reflexivity).
  assert (H2 : nr_listed x86_64 (other_rows "ioctl" ps_seccomp_table) (u32 16)
               = false) by (vm_compute; reflexivity).
  split; [by split_and!|].
  exact (proj1 (ioctl_allowed_iff x86_64 (call_x86_64 16 3 SIOCGIFINDEX) 16
                  H1 H2 eq_refl eq_refl)).
Defined.

(** X8. On a build where the x32 guard holds the table allows
    clock_gettime under both of its numbers, the one with the x32 bit and
    the one with the bit cleared; where the guard does not hold that row
    adds no instruction to the filter. *)
Theorem x32_clock_gettime_both_numbers
    (P : platform) (d : seccomp_data) (n : Z) :
  NR P !! "clock_gettime" = Some n ->
  u32 (arch d) = u32 (SECCOMP_AUDIT_ARCH P) ->
  (u32 (nr d) = u32 n -> seccomp_verdict P d = Ret SECCOMP_RET_ALLOW) /\
  (forall bit, X32_SYSCALL_BIT P = Some bit ->
     u32 (nr d) = u32 (Z.land n (Z.lnot bit)) ->
     seccomp_verdict P d = Ret SECCOMP_RET_ALLOW) /\
  (X32_SYSCALL_BIT P = None ->
   expand_row P (AllowNoX32 "clock_gettime") = []).
Proof.
  intros Hnr Harch.
  assert (Hallow : forall r, In r ps_seccomp_table -> row_admits P d r ->
                    seccomp_verdict P d = Ret SECCOMP_RET_ALLOW).
  { intros r Hin Hr. unfold seccomp_verdict, ps_seccomp_filter.
    apply verdict_allow_iff; [apply ps_seccomp_table_ok|].
    split; [done|]. apply existsb_exists. exists r.
    split; [done|]. by apply row_allows_admits. }
  split_and!.
  - intros Hn. apply (Hallow (Allow "clock_gettime")).
    + unfold ps_seccomp_table. cbn [In]. tauto.
    + exists n. by split_and!.
  - intros bit Hbit Hn. apply (Hallow (AllowNoX32 "clock_gettime")).
    + unfold ps_seccomp_table. cbn [In]. tauto.
    + exists (Z.land n (Z.lnot bit)). split_and!; [|done..].
      cbn [row_nr]. by rewrite Hbit, Hnr.
  - intros Hbit. unfold expand_row. cbn [row_nr]. by rewrite Hbit.
Qed.

(** clock_gettime entered on x32 as 228, the x86-64 number. *)
Lemma x32_clock_gettime_both_numbers_witness :
  (NR x32 !! "clock_gettime" = Some (X32_BIT + 228)
   /\ u32 (arch (call_x86_64 228 1 0)) = u32 (SECCOMP_AUDIT_ARCH x32)
   /\ X32_SYSCALL_BIT x32 = Some X32_BIT
   /\ u32 (nr (call_x86_64 228 1 0))
      = u32 (Z.land (X32_BIT + 228) (Z.lnot X32_BIT)))
  /\ seccomp_verdict x32 (call_x86_64 228 1 0) = Ret SECCOMP_RET_ALLOW
  /\ seccomp_verdict x32 (call_x86_64 (X32_BIT + 228) 1 0)
     = Ret SECCOMP_RET_ALLOW.
Proof.
  assert (H1 : NR x32 !! "clock_gettime" = Some (X32_BIT + 228))
    by (vm_compute; reflexivity).
  split; [by split_and!|]. split.
  - exact (proj1 (proj2 (x32_clock_gettime_both_numbers x32
                           (call_x86_64 228 1 0) (X32_BIT + 228)
                           H1 eq_refl)) X32_BIT eq_refl eq_refl).
  - exact (proj1 (x32_clock_gettime_both_numbers x32
                    (call_x86_64 (X32_BIT + 228) 1 0) (X32_BIT + 228)
                    H1 eq_refl) eq_refl).
Defined.

(** X9. An unconditional rule placed anywhere in a program: with the
    accumulator on the rule's number it returns allow, whatever the
    arguments of the call; on any other number it passes control, the
    accumulator untouched, to the instruction that follows the rule. *)
Theorem allow_rule_semantics
    (bo : byte_order) (d : seccomp_data) (pre post : list sock_filter)
    (n A : Z) :
  let prog := pre ++ SECCOMP_ALLOW n ++ post in
  (A = u32 n ->
   bpf_run 2 bo prog d (length pre) A = Ret SECCOMP_RET_ALLOW) /\
  (A <> u32 n ->
   bpf_run 1 bo prog d (length pre) A = Next (length pre + 2) A) /\
  prog !! (length pre + 2)%nat = post !! 0%nat.
Proof.
  intros prog. subst prog. split_and!.
  - by apply allow_hit.
  - by apply allow_miss.
  - rewrite lookup_app_r by lia.
    rewrite lookup_app_r by (cbn [length SECCOMP_ALLOW]; lia).
    f_equal. cbn [length SECCOMP_ALLOW]. lia.
Qed.

(** The rule for write (1) tried on a read (0) and on a write. *)
Lemma allow_rule_semantics_witness :
  (u32 0 <> u32 1 /\ u32 1 = u32 1)
  /\ bpf_run 1 LITTLE_ENDIAN ([] ++ SECCOMP_ALLOW 1 ++ [filter_deny])
       (call_x86_64 0 0 0) 0 (u32 0) = Next 2 (u32 0)
  /\ bpf_run 2 LITTLE_ENDIAN ([] ++ SECCOMP_ALLOW 1 ++ [filter_deny])
       (call_x86_64 1 0 0) 0 (u32 1) = Ret SECCOMP_RET_ALLOW.
Proof.
  assert (H : u32 0 <> u32 1) by (vm_compute; discriminate).
  split; [by split|]. split.
  - exact (proj1 (proj2 (allow_rule_semantics LITTLE_ENDIAN
                           (call_x86_64 0 0 0) [] [filter_deny] 1 (u32 0))) H).
  - exact (proj1 (allow_rule_semantics LITTLE_ENDIAN
                    (call_x86_64 1 0 0) [] [filter_deny] 1 (u32 1)) eq_refl).
Defined.

(** ** More on the installer and the relay *)

(** The installer, path by path. *)
Lemma seccomp_enter_paths K P w :
  let nnp := PR_SET_NO_NEW_PRIVS 1 in
  let flt := PR_SET_SECCOMP_FILTER (ps_seccomp_prog P) in
  let w1 := {| p_errno := p_errno w; p_fds := p_fds w;
               p_no_new_privs := true; p_filters := p_filters w;
               p_rx := p_rx w; p_log := p_log w ++ [EvPrctl nnp 0] |} in
  let '(r, w') := ps_seccomp_enter K P w in
  match k_prctl K w nnp with
  | Some e =>
    r = -1 /\ p_errno w' = (if e =? EINVAL then ENOSYS else e) /\
    p_filters w' = p_filters w
  | None =>
    match k_prctl K w1 flt with
    | Some e =>
      r = -1 /\ p_errno w' = (if e =? EINVAL then ENOSYS else e) /\
      p_filters w' = p_filters w
    | None =>
      r = 0 /\ p_errno w' = p_errno w /\
      p_filters w' = ps_seccomp_prog P :: p_filters w /\
      p_no_new_privs w' = true
    end
  end.
Proof.
  intros nnp flt w1. subst w1 nnp flt.
  unfold ps_seccomp_enter. unfold mbind, M_bind.
  destruct (k_prctl K w (PR_SET_NO_NEW_PRIVS 1)) as [e|] eqn:E1.
  - rewrite (prctl_fail _ _ _ _ E1). change (-1 =? -1) with true.
    cbv beta iota. unfold mret, M_ret, get_errno. cbn [p_errno].
    destruct (e =? EINVAL); by split_and!.
  - rewrite (prctl_nnp_ok _ _ E1). change (0 =? -1) with false.
    cbv beta iota.
    destruct (k_prctl K _ (PR_SET_SECCOMP_FILTER _)) as [e|] eqn:E2.
    + rewrite (prctl_fail _ _ _ _ E2). unfold mret, M_ret, get_errno.
      change (-1 =? -1) with true. cbv beta iota. cbn [p_errno].
      destruct (e =? EINVAL); by split_and!.
    + rewrite (prctl_filter_ok _ _ _ E2). unfold mret, M_ret.
      change (0 =? -1) with false. cbv beta iota. by split_and!.
Qed.

Lemma normalised_not_einval e : (if e =? EINVAL then ENOSYS else e) <> EINVAL.
Proof. destruct (Z.eqb_spec e EINVAL); [discriminate|done]. Qed.

(** X10. The installer fails closed: it returns 0 or -1; 0 only with the
    filter program installed, new privileges disabled and errno untouched;
    -1 with no filter added, and then errno is never EINVAL, whatever the
    kernel reported. *)
Theorem seccomp_enter_fail_closed (K : kernel) (P : platform) (w : proc) :
  let '(r, w') := ps_seccomp_enter K P w in
  (r = 0 \/ r = -1) /\
  (r = 0 ->
   p_filters w' = ps_seccomp_prog P :: p_filters w /\
   p_no_new_privs w' = true /\ p_errno w' = p_errno w) /\
  (r = -1 -> p_filters w' = p_filters w /\ p_errno w' <> EINVAL).
Proof.
  pose proof (seccomp_enter_paths K P w) as H. cbv zeta in H.
  destruct (ps_seccomp_enter K P w) as [r w'].
  destruct (k_prctl K w _) as [e|].
  { destruct H as (-> & -> & ->). split_and!; [by right|done|].
    intros _. split; [done|apply normalised_not_einval]. }
  destruct (k_prctl K _ _) as [e|].
  { destruct H as (-> & -> & ->). split_and!; [by right|done|].
    intros _. split; [done|apply normalised_not_einval]. }
  destruct H as (-> & -> & -> & ->). split_and!; [by left|done|done].
Qed.

(** A kernel without seccomp filters. *)
Lemma seccomp_enter_fail_closed_witness :
  fst (ps_seccomp_enter kernel_no_seccomp x86_64 proc0) = -1 /\
  p_filters (snd (ps_seccomp_enter kernel_no_seccomp x86_64 proc0)) = [] /\
  p_errno (snd (ps_seccomp_enter kernel_no_seccomp x86_64 proc0)) <> EINVAL.
Proof.
  pose proof (seccomp_enter_fail_closed kernel_no_seccomp x86_64 proc0) as H.
  destruct (ps_seccomp_enter kernel_no_seccomp x86_64 proc0) as [r w'] eqn:E.
  assert (Hr : r = -1) by (apply (f_equal fst) in E; vm_compute in E; congruence).
  destruct H as (_ & _ & H). destruct (H Hr) as [Hf He].
  split_and!; [exact Hr | exact Hf | exact He].
Defined.



Lemma bad_closes_app l1 l2 :
  bad_closes (l1 ++ l2) = (bad_closes l1 + bad_closes l2)%nat.
Proof. unfold bad_closes. by rewrite List.filter_app, length_app. Qed.

Lemma ps_root_os_no_bad_close K psm msg w :
  bad_closes (p_log (snd (ps_root_os K psm msg w))) = bad_closes (p_log w).
Proof.
  destruct (decide (ps_cmd psm = PS_ROUTE)) as [Hc|Hc].
  - unfold ps_root_os. apply Z.eqb_eq in Hc. rewrite Hc.
    pose proof (dosendnetlink_paths K (to_int (ps_flags psm)) msg w) as H.
    cbv zeta in H.
    destruct (ps_root_dosendnetlink K (to_int (ps_flags psm)) msg w)
      as [r w'].
    destruct H as (_ & _ & _ & _ & H). cbn [snd].
    destruct (k_linksocket K w _) as [e|].
    { destruct H as (_ & _ & ->). rewrite bad_closes_app. cbn. lia. }
    destruct (k_sendmsg K _ _ msg) as [n|e].
    2:{ destruct H as (_ & _ & ->). rewrite bad_closes_app. cbn. lia. }
    destruct (k_getnetlink K _ _) as [m|e];
      destruct H as (_ & _ & ->); rewrite bad_closes_app; cbn; lia.
  - by rewrite ps_root_os_other.
Qed.

(** X12. The relay never closes a descriptor that is not open: over any
    sequence of requests, supported or not, and whatever the kernel
    answers, no close fails; in particular nothing is closed when the
    socket could not be opened, and no socket is closed twice. *)
Theorem relay_never_closes_invalid
    (K : kernel) (reqs : list (ps_msghdr * msghdr)) (w : proc) :
  bad_closes (p_log (snd (ps_root_os_loop K reqs w))) = bad_closes (p_log w).
Proof.
  revert w. induction reqs as [|[psm msg] reqs IH]; intros w; [done|].
  cbn [ps_root_os_loop]. unfold mbind, M_bind, mret, M_ret.
  pose proof (ps_root_os_no_bad_close K psm msg w) as H1.
  destruct (ps_root_os K psm msg w) as [r w1]. cbn [snd] in H1.
  pose proof (IH w1) as H2.
  destruct (ps_root_os_loop K reqs w1) as [rs w2]. cbn [snd] in *.
  congruence.
Qed.
